(** * torchgpipe.skip.skippable: the user interface to define skip connections

    A shallow embedding of [src/torchgpipe/skip/skippable.py] and the
    properties of its stash/pop protocol.

    Modelling conventions.
    - A [frozenset] of names is a [gset string], a [dict] keyed by names is a
      [gmap string _].  Python leaves the iteration order of a set
      unspecified; the model iterates in the order of [elements], and no
      statement below depends on that order.
    - A generator is a finite tree: it returns, raises, or yields an object
      and waits for the value sent back.  A body that never terminates makes
      [forward] diverge and is outside the model.
    - Exceptions are the Python exceptions the source raises, with their
      messages.  Two corners of [dispatch] are left out: a body that ends
      without a value, for which [stop.args[0]] raises [IndexError] (its
      return type is [TensorOrTensors]), and a yielded tuple, for which the
      [%] that builds the message of the [TypeError] raises a [TypeError]
      with another message.
    - [skippable] gives the contents of the class it builds; that two calls
      build two distinct class objects is not modelled.
    - The skip tracker and [Batch] live in other modules of the package;
      the tracker is an interface here, threaded as explicit state. *)

From stdpp Require Import gmap strings list fin_maps.

(** ** Exceptions and results *)

Inductive exn : Type :=
  | TypeError (msg : string)
  | RuntimeError (msg : string)
  | KeyError (key : string)
  | Exception (msg : string).

Inductive outcome (A : Type) : Type :=
  | Returns (a : A)
  | Raises (e : exn).
Arguments Returns {A} a.
Arguments Raises {A} e.

(** Code that mutates captured dictionaries and may raise: the state is
    threaded, an exception abandons it. *)
Definition M (S A : Type) : Type := S → outcome (A * S).

Definition raise {S A} (e : exn) : M S A := λ _, Raises e.

#[export] Instance M_ret {S} : MRet (M S) := λ A a s, Returns (a, s).

#[export] Instance M_bind {S} : MBind (M S) := λ A B f m s,
  match m s with
  | Returns (a, s') => f a s'
  | Raises e => Raises e
  end.

(** ** String formatting *)

(** ["'%s'" % n] *)
Definition quoted (n : string) : string := "'" +:+ n +:+ "'".

(** [', '.join("'%s'" % n for n in names)] *)
Definition comma_names (names : list string) : string :=
  String.concat ", " (quoted <$> names).

(** [s] occurs inside [msg]. *)
Definition occurs_in (s msg : string) : Prop :=
  ∃ pre post, msg = pre +:+ s +:+ post.

Section skippable.
Context {Tensor TensorOrTensors Namespace Args : Type}.

(** ** Commands *)

(** What a body may yield: a [stash], a [pop], or any other Python
    object, kept by its [repr]. *)
Inductive object : Type :=
  | stash (name : string) (tensor : option Tensor)
  | pop (name : string)
  | other (repr : string).

(** A generator of type [Generator[StashPop, Optional[Tensor],
    TensorOrTensors]]: [StopIteration(output)], an exception of the body,
    or a yielded object with the rest of the body resumed on the value
    sent in ([next] sends [None]). *)
Inductive generator : Type :=
  | Return (output : TensorOrTensors)
  | Raise (e : exn)
  | Yield (op : object) (resume : option Tensor → generator).

(** The result of [self.module(input)]. *)
Inductive module_result : Type :=
  | Plain (output : TensorOrTensors)
  | Generator (g : generator)
  | Failed (e : exn).

Definition SkippableModule : Type := TensorOrTensors → module_result.

(** ** [Batch] and the skip tracker *)

Record Batch : Type := { tensor_or_tensors : TensorOrTensors }.

(** [skip_tracker.load(batch, ns, name)] and
    [skip_tracker.save(batch, ns, name, tensor)]; both may update the
    tracker and the batch they are given.  The namespace argument is what
    [namespaced] produced, [None] for a name that was never isolated. *)
Class SkipTracker (T : Type) : Type := {
  load : T → Batch → option Namespace → string → T * Batch * option Tensor;
  save : T → Batch → option Namespace → string → option Tensor → T * Batch;
}.

(** ** The class built by [@skippable] and its instances *)

Record Skippable_cls : Type := {
  module_cls : Args → SkippableModule;
  stashable_names : gset string;
  poppable_names : gset string;
}.

Record Skippable : Type := {
  cls : Skippable_cls;
  module : SkippableModule;
  namespaces : gmap string Namespace;
}.

(** [skippable(stash, pop)(module_cls)] *)
Definition skippable (stash pop : list string)
    (module_cls : Args → SkippableModule) : Skippable_cls :=
  {| module_cls := module_cls;
     stashable_names := list_to_set stash;
     poppable_names := list_to_set pop |}.

(** [Skippable.__init__] *)
Definition init (c : Skippable_cls) (args : Args) : Skippable :=
  {| cls := c; module := module_cls c args; namespaces := ∅ |}.

(** [Skippable.namespaced] *)
Definition namespaced (self : Skippable) (name : string)
    : option Namespace * string :=
  let ns := namespaces self !! name in
  (ns, name).

(** [Skippable.stashable] *)
Definition stashable (self : Skippable) : list (option Namespace * string) :=
  namespaced self <$> elements (stashable_names (cls self)).

(** [Skippable.poppable] *)
Definition poppable (self : Skippable) : list (option Namespace * string) :=
  namespaced self <$> elements (poppable_names (cls self)).

(** The set [names] computed at the top of [Skippable.isolate]. *)
Definition isolate_names (self : Skippable) (only : option (list string))
    : gset string :=
  match only with
  | None => stashable_names (cls self) ∪ poppable_names (cls self)
  | Some only => list_to_set only
  end.

(** [Skippable.isolate] *)
Definition isolate (self : Skippable) (ns : Namespace)
    (only : option (list string)) : Skippable :=
  let names := isolate_names self only in
  {| cls := cls self;
     module := module self;
     namespaces :=
       foldl (λ namespaces name, <[name := ns]> namespaces)
             (namespaces self) (elements names) |}.

(** Some calls of [isolate], one after the other. *)
Definition isolate_all (self : Skippable)
    (calls : list (Namespace * option (list string))) : Skippable :=
  foldl (λ self '(ns, only), isolate self ns only) self calls.

(** ** [Skippable.dispatch] *)

Section dispatch.
Context {S : Type}.
Variable handle_stash : string → option Tensor → M S unit.
Variable handle_pop : string → M S (option Tensor).

(** The [while True] loop, entered with the generator about to produce
    [op]; [StopIteration] ends it with the body's output. *)
Fixpoint dispatch_loop (generator : generator) : M S TensorOrTensors :=
  match generator with
  | Return output => mret output
  | Raise e => raise e
  | Yield op resume =>
      match op with
      | stash name tensor =>
          handle_stash name tensor;;
          dispatch_loop (resume None)
      | pop name =>
          tensor ← handle_pop name;
          dispatch_loop (resume tensor)
      | other repr =>
          raise (TypeError (repr +:+ " is not a command from @skippable"))
      end
  end.

Definition dispatch (self : Skippable) (input : TensorOrTensors)
    : M S TensorOrTensors :=
  match module self input with
  | Failed e => raise e
  | Plain output => mret output
  | Generator generator => dispatch_loop generator
  end.

(** The objects the body hands to the loop, in order, up to and
    including the one at which the loop stops. *)
Fixpoint yielded (generator : generator) (s : S) : list object :=
  match generator with
  | Return _ | Raise _ => []
  | Yield op resume =>
      op ::
      match op with
      | stash name tensor =>
          match handle_stash name tensor s with
          | Returns (_, s') => yielded (resume None) s'
          | Raises _ => []
          end
      | pop name =>
          match handle_pop name s with
          | Returns (tensor, s') => yielded (resume tensor) s'
          | Raises _ => []
          end
      | other _ => []
      end
  end.

(** The names popped and the tensors sent back to the body for them, in
    order: what [handle_pop] returned at each [pop] it answered. *)
Fixpoint answered (generator : generator) (s : S)
    : list (string * option Tensor) :=
  match generator with
  | Return _ | Raise _ => []
  | Yield op resume =>
      match op with
      | stash name tensor =>
          match handle_stash name tensor s with
          | Returns (_, s') => answered (resume None) s'
          | Raises _ => []
          end
      | pop name =>
          match handle_pop name s with
          | Returns (tensor, s') => (name, tensor) :: answered (resume tensor) s'
          | Raises _ => []
          end
      | other _ => []
      end
  end.
End dispatch.

(** ** [Skippable.forward] *)

(** The two dictionaries local to one call of [forward]. *)
Record locals : Type := {
  skips_stashed : gmap string (option Tensor);
  skips_to_pop : gmap string (option Tensor);
}.

Definition handle_stash (self : Skippable) (name : string)
    (tensor : option Tensor) : M locals unit :=
  λ l,
    if decide (name ∈ stashable_names (cls self)) then
      Returns (tt, {| skips_stashed := <[name := tensor]> (skips_stashed l);
                      skips_to_pop := skips_to_pop l |})
    else
      Raises (RuntimeError
                (quoted name +:+ " has not been declared as stashable")).

Definition handle_pop (self : Skippable) (name : string)
    : M locals (option Tensor) :=
  λ l,
    if decide (name ∈ poppable_names (cls self)) then
      match skips_to_pop l !! name with
      | Some tensor =>
          Returns (tensor, {| skips_stashed := skips_stashed l;
                              skips_to_pop := delete name (skips_to_pop l) |})
      | None => Raises (KeyError name)
      end
    else
      Raises (RuntimeError
                (quoted name +:+ " has not been declared as poppable")).

Section forward.
Context {T : Type} `{!SkipTracker T}.

(** "Load skip tensors that might be popped." *)
Definition load_skips (self : Skippable) (skip_tracker : T) (batch : Batch)
    : T * Batch * gmap string (option Tensor) :=
  foldl (λ '(skip_tracker, batch, skips_to_pop) '(ns, name),
           let '(skip_tracker, batch, tensor) :=
             load skip_tracker batch ns name in
           (skip_tracker, batch, <[name := tensor]> skips_to_pop))
        (skip_tracker, batch, ∅) (poppable self).

(** "Save stashed skip tensors."  [skips_stashed[name]] raises
    [KeyError] for a name that is not a key. *)
Fixpoint save_skips (skips_stashed : gmap string (option Tensor))
    (names : list (option Namespace * string))
    (skip_tracker : T) (batch : Batch) : outcome Batch * T :=
  match names with
  | [] => (Returns batch, skip_tracker)
  | (ns, name) :: names =>
      match skips_stashed !! name with
      | Some tensor =>
          let '(skip_tracker, batch) :=
            save skip_tracker batch ns name tensor in
          save_skips skips_stashed names skip_tracker batch
      | None => (Raises (KeyError name), skip_tracker)
      end
  end.

(** "All declared skips must be stashed or popped." *)
Definition check_skips (self : Skippable) (l : locals) : outcome unit :=
  let not_stashed := stashable_names (cls self) ∖ dom (skips_stashed l) in
  let not_popped := dom (skips_to_pop l) in
  if decide (not_stashed ≠ ∅) then
    Raises (RuntimeError (comma_names (elements not_stashed)
                          +:+ " must be stashed but have not"))
  else if decide (not_popped ≠ ∅) then
    Raises (RuntimeError (comma_names (elements not_popped)
                          +:+ " must be popped but have not"))
  else Returns tt.

(** One call of [forward] on the current skip tracker: the result and
    the tracker as the call leaves it. *)
Definition forward (self : Skippable) (input : TensorOrTensors)
    (skip_tracker : T) : outcome TensorOrTensors * T :=
  let batch := {| tensor_or_tensors := input |} in
  let '(skip_tracker, batch, skips_to_pop) :=
    load_skips self skip_tracker batch in
  let input := tensor_or_tensors batch in
  match dispatch (handle_stash self) (handle_pop self) self input
          {| skips_stashed := ∅; skips_to_pop := skips_to_pop |} with
  | Raises e => (Raises e, skip_tracker)
  | Returns (output, l) =>
      match check_skips self l with
      | Raises e => (Raises e, skip_tracker)
      | Returns _ =>
          let batch := {| tensor_or_tensors := output |} in
          match save_skips (skips_stashed l) (stashable self)
                  skip_tracker batch with
          | (Raises e, skip_tracker) => (Raises e, skip_tracker)
          | (Returns batch, skip_tracker) =>
              (Returns (tensor_or_tensors batch), skip_tracker)
          end
      end
  end.

(** *** Names for the stages of one call *)

(** The tracker, the batch and [skips_to_pop] once the loads are done. *)
Definition loaded (self : Skippable) (input : TensorOrTensors)
    (skip_tracker : T) : T * Batch * gmap string (option Tensor) :=
  load_skips self skip_tracker {| tensor_or_tensors := input |}.

Definition loaded_tracker self input skip_tracker : T :=
  (loaded self input skip_tracker).1.1.

(** The input handed to the body: [batch.tensor_or_tensors] after the
    loads. *)
Definition loaded_input self input skip_tracker : TensorOrTensors :=
  tensor_or_tensors (loaded self input skip_tracker).1.2.

(** The two dictionaries as [dispatch] is entered. *)
Definition initial_locals self input skip_tracker : locals :=
  {| skips_stashed := ∅;
     skips_to_pop := (loaded self input skip_tracker).2 |}.

(** What [self.dispatch(input, handle_stash, handle_pop)] gives in this
    call, with the dictionaries as it leaves them. *)
Definition dispatched self input skip_tracker
    : outcome (TensorOrTensors * locals) :=
  dispatch (handle_stash self) (handle_pop self) self
    (loaded_input self input skip_tracker)
    (initial_locals self input skip_tracker).

(** The objects the body yields in this call. *)
Definition commands self input skip_tracker : list object :=
  match module self (loaded_input self input skip_tracker) with
  | Generator generator =>
      yielded (handle_stash self) (handle_pop self) generator
        (initial_locals self input skip_tracker)
  | Plain _ | Failed _ => []
  end.

(** [load] gives [None] for [name] in every state of the tracker that loads
    can lead to from [skip_tracker]: the states are described by a property
    that holds of [skip_tracker] and that no [load] breaks. *)
Definition nothing_to_load self skip_tracker (name : string) : Prop :=
  ∃ reachable : T → Prop,
    reachable skip_tracker
    ∧ (∀ t batch ns name', reachable t → reachable (load t batch ns name').1.1)
    ∧ (∀ t batch, reachable t →
         (load t batch (namespaces self !! name) name).2 = None).

(** The tensors the body is sent for its [pop]s in this call. *)
Definition answers self input skip_tracker : list (string * option Tensor) :=
  match module self (loaded_input self input skip_tracker) with
  | Generator generator =>
      answered (handle_stash self) (handle_pop self) generator
        (initial_locals self input skip_tracker)
  | Plain _ | Failed _ => []
  end.
End forward.

(** The names popped in a sequence of yielded objects, in order. *)
Definition pop_names (ops : list object) : list string :=
  omap (λ op, match op with pop name => Some name | _ => None end) ops.

(** [op] is a command on a name the class declares for it. *)
Definition declared (self : Skippable) (op : object) : Prop :=
  match op with
  | stash name _ => name ∈ stashable_names (cls self)
  | pop name => name ∈ poppable_names (cls self)
  | other _ => False
  end.

(** [op] is [pop(name)]. *)
Definition is_pop_of (name : string) (op : object) : bool :=
  match op with
  | pop name' => bool_decide (name' = name)
  | _ => false
  end.

(** The tensor of the last [stash] of [name] in a sequence of yielded
    objects, if there is one. *)
Fixpoint last_stashed (name : string) (ops : list object)
    : option (option Tensor) :=
  match ops with
  | [] => None
  | op :: ops =>
      match last_stashed name ops with
      | Some tensor => Some tensor
      | None =>
          match op with
          | stash name' tensor =>
              if decide (name' = name) then Some tensor else None
          | _ => None
          end
      end
  end.

(** ** A tracker that records its calls *)

Inductive call : Type :=
  | Load (batch : Batch) (ns : option Namespace) (name : string)
  | Save (batch : Batch) (ns : option Namespace) (name : string)
         (tensor : option Tensor).

(** The names [save] was called with, in order. *)
Definition saved_names (log : list call) : list string :=
  omap (λ c, match c with
             | Save _ _ name _ => Some name
             | Load _ _ _ => None
             end) log.

(** The names [load] was called with, in order. *)
Definition loaded_names (log : list call) : list string :=
  omap (λ c, match c with
             | Load _ _ name => Some name
             | Save _ _ _ _ => None
             end) log.

(** The namespace and the name a call was made with. *)
Definition call_key (c : call) : option Namespace * string :=
  match c with
  | Load _ ns name | Save _ ns name _ => (ns, name)
  end.

(** Any tracker, with the list of calls made on it so far. *)
#[export] Instance recording {T} `{!SkipTracker T}
    : SkipTracker (T * list call) := {|
  load '(skip_tracker, log) batch ns name :=
    let '(skip_tracker, batch', tensor) := load skip_tracker batch ns name in
    ((skip_tracker, log ++ [Load batch ns name]), batch', tensor);
  save '(skip_tracker, log) batch ns name tensor :=
    let '(skip_tracker, batch') := save skip_tracker batch ns name tensor in
    ((skip_tracker, log ++ [Save batch ns name tensor]), batch');
|}.

End skippable.

(** ** A small pipeline to run the definitions on

    Tensors and outputs are numbers, namespaces are numbered. *)

Module Example.

(** Modelled from the spec: the tracker's storage is outside this module;
    [load] gives the value saved under [(ns, name)], or none when nothing
    was saved there, and [save] stores the value.  Neither touches the
    batch. *)
#[export] Instance tracker
    : SkipTracker (Tensor := nat) (TensorOrTensors := nat) (Namespace := nat)
        (gmap (option nat * string) (option nat)) := {|
  load skip_tracker batch ns name :=
    (skip_tracker, batch, default None (skip_tracker !! (ns, name)));
  save skip_tracker batch ns name tensor :=
    (<[(ns, name) := tensor]> skip_tracker, batch);
|}.

Definition Skippable_cls : Type :=
  Skippable_cls (Tensor := nat) (TensorOrTensors := nat) (Args := unit).

Definition Skippable : Type :=
  Skippable (Tensor := nat) (TensorOrTensors := nat) (Namespace := nat)
    (Args := unit).

Definition call : Type :=
  call (Tensor := nat) (TensorOrTensors := nat) (Namespace := nat).

(** An instance, made without arguments. *)
Definition new (c : Skippable_cls) : Skippable := init c ().

(** A tracker in which nothing was saved. *)
Definition fresh : gmap (option nat * string) (option nat) := ∅.

(** [yield stash('a', input); yield stash('b', input + 1); return 2 * input] *)
Definition Layer1 : Skippable_cls :=
  skippable ["a"; "b"] []
    (λ _ input,
       Generator (Yield (stash "a" (Some input)) (λ _,
                  Yield (stash "b" (Some (input + 1))) (λ _,
                  Return (2 * input))))).

(** [yield stash('a', input); return input]: ['b'] is forgotten. *)
Definition Forgetful : Skippable_cls :=
  skippable ["a"; "b"] []
    (λ _ input,
       Generator (Yield (stash "a" (Some input)) (λ _, Return input))).

(** [a = yield pop('a'); return input + a], a missing tensor counting
    as [0]. *)
Definition Layer3 : Skippable_cls :=
  skippable [] ["a"]
    (λ _ input,
       Generator (Yield (pop "a") (λ a, Return (input + default 0 a)))).

(** [return input]: nothing is popped. *)
Definition Lazy : Skippable_cls :=
  skippable [] ["a"] (λ _ input, Plain input).

(** [return input + 1] with a stash declared. *)
Definition PlainStash : Skippable_cls :=
  skippable ["a"] [] (λ _ input, Plain (input + 1)).

(** [yield pop('a'); yield pop('a'); return input] *)
Definition PopTwice : Skippable_cls :=
  skippable [] ["a"]
    (λ _ input,
       Generator (Yield (pop "a") (λ _, Yield (pop "a") (λ _,
                  Return input)))).

(** [yield stash('a', 1); yield stash('a', 2); return input] *)
Definition StashTwice : Skippable_cls :=
  skippable ["a"] []
    (λ _ input,
       Generator (Yield (stash "a" (Some 1)) (λ _,
                  Yield (stash "a" (Some 2)) (λ _, Return input)))).

(** [yield stash('z', input); return input] with only ['a'] declared. *)
Definition StashUndeclared : Skippable_cls :=
  skippable ["a"] []
    (λ _ input,
       Generator (Yield (stash "z" (Some input)) (λ _, Return input))).

(** [yield pop('z'); return input] with only ['a'] declared. *)
Definition PopUndeclared : Skippable_cls :=
  skippable [] ["a"]
    (λ _ input, Generator (Yield (pop "z") (λ _, Return input))).

(** [yield stash('s', input); x = yield pop('x'); return input + x], a
    missing tensor counting as [0]. *)
Definition StashAndPop : Skippable_cls :=
  skippable ["s"] ["x"]
    (λ _ input,
       Generator (Yield (stash "s" (Some input)) (λ _,
                  Yield (pop "x") (λ x, Return (input + default 0 x))))).

(** [yield stash('a', None); return input] *)
Definition StashNone : Skippable_cls :=
  skippable ["a"] []
    (λ _ input, Generator (Yield (stash "a" None) (λ _, Return input))).

(** [yield 42; return input] *)
Definition YieldsNumber : Skippable_cls :=
  skippable [] []
    (λ _ input, Generator (Yield (other "42") (λ _, Return input))).

End Example.

(** * Properties *)

(** ** Strings *)

Lemma string_app_assoc (s1 s2 s3 : string) :
  (s1 +:+ s2) +:+ s3 = s1 +:+ s2 +:+ s3.
Proof.
  induction s1 as [|a s1 IH]; [done|].
  change (String a ((s1 +:+ s2) +:+ s3) = String a (s1 +:+ s2 +:+ s3)).
  by rewrite IH.
Qed.

Lemma string_app_nil_r (s : string) : s +:+ "" = s.
Proof.
  induction s as [|a s IH]; [done|].
  change (String a (s +:+ "") = String a s). by rewrite IH.
Qed.

Lemma occurs_in_here (s post : string) : occurs_in s (s +:+ post).
Proof. by exists "", post. Qed.

Lemma occurs_in_later (s pre msg : string) :
  occurs_in s msg → occurs_in s (pre +:+ msg).
Proof.
  intros (pre' & post & ->). exists (pre +:+ pre'), post.
  by rewrite string_app_assoc.
Qed.

(** Every joined name can be read off the joined string. *)
Lemma comma_names_occurs (names : list string) (n : string) :
  n ∈ names → occurs_in (quoted n) (comma_names names).
Proof.
  unfold comma_names. induction names as [|n' names IH]; intros Hn.
  { by apply elem_of_nil in Hn. }
  apply elem_of_cons in Hn as [->|Hn].
  - destruct names as [|n'' names]; simpl.
    + rewrite <- (string_app_nil_r (quoted n')) at 2. apply occurs_in_here.
    + apply occurs_in_here.
  - destruct names as [|n'' names]; [by apply elem_of_nil in Hn|].
    change (occurs_in (quoted n)
              (quoted n' +:+ ", " +:+ String.concat ", " (quoted <$> n'' :: names))).
    do 2 apply occurs_in_later. by apply IH.
Qed.

Section properties.
Context {Tensor TensorOrTensors Namespace Args : Type}.

Local Abbreviation Skippable := (Skippable (Tensor := Tensor)
  (TensorOrTensors := TensorOrTensors) (Namespace := Namespace) (Args := Args)).
Local Abbreviation Skippable_cls := (Skippable_cls (Tensor := Tensor)
  (TensorOrTensors := TensorOrTensors) (Args := Args)).
Local Abbreviation object := (object (Tensor := Tensor)).
Local Abbreviation generator := (generator (Tensor := Tensor)
  (TensorOrTensors := TensorOrTensors)).
Local Abbreviation locals := (locals (Tensor := Tensor)).
Local Abbreviation Batch := (Batch (TensorOrTensors := TensorOrTensors)).
Local Abbreviation call := (call (Tensor := Tensor)
  (TensorOrTensors := TensorOrTensors) (Namespace := Namespace)).

(** ** Namespaces *)

Lemma foldl_insert_lookup (ns : Namespace) (names : list string)
    (m : gmap string Namespace) (name : string) :
  foldl (λ namespaces name, <[name := ns]> namespaces) m names !! name
  = if decide (name ∈ names) then Some ns else m !! name.
Proof.
  revert m. induction names as [|n names IH]; intros m.
  { rewrite decide_False; [done | apply not_elem_of_nil]. }
  simpl. rewrite IH. destruct (decide (name = n)) as [->|Hne].
  - rewrite lookup_insert_eq.
    rewrite (decide_True (P := n ∈ n :: names)) by apply list_elem_of_here.
    by case_decide.
  - rewrite lookup_insert_ne by done.
    destruct (decide (name ∈ names)) as [Hin|Hin].
    + by rewrite decide_True by by apply list_elem_of_further.
    + rewrite decide_False; [done|]. by intros [?|?]%elem_of_cons.
Qed.

Lemma isolate_lookup (self : Skippable) ns only name :
  namespaces (isolate self ns only) !! name
  = if decide (name ∈ isolate_names self only) then Some ns
    else namespaces self !! name.
Proof.
  unfold isolate; simpl. rewrite foldl_insert_lookup.
  destruct (decide (name ∈ isolate_names self only)) as [Hin|Hin].
  - by rewrite decide_True by by apply elem_of_elements.
  - rewrite decide_False; [done|]. by rewrite elem_of_elements.
Qed.

(** C9.  [isolate(ns, only=names)] maps exactly the names in [names] to
    [ns], and [isolate(ns)] exactly the names in
    [stashable_names | poppable_names]; every other name keeps the
    namespace it had, whatever it was, and so do the declared names and the
    module.  The instance is arbitrary, so this holds after any earlier
    [isolate], whose assignment is overwritten on the names covered. *)
Theorem isolate_assigns_exactly (self : Skippable) (ns : Namespace)
    (name : string) :
  (∀ names : list string,
     namespaces (isolate self ns (Some names)) !! name
     = if decide (name ∈ names) then Some ns else namespaces self !! name)
  ∧ namespaces (isolate self ns None) !! name
    = (if decide (name ∈ stashable_names (cls self) ∪ poppable_names (cls self))
       then Some ns else namespaces self !! name)
  ∧ (∀ only, cls (isolate self ns only) = cls self
             ∧ module (isolate self ns only) = module self)
  ∧ (∀ ns' only only',
       name ∈ isolate_names self only' →
       namespaces (isolate (isolate self ns' only) ns only') !! name = Some ns).
Proof.
  split_and!.
  - intros names. rewrite isolate_lookup; simpl.
    destruct (decide (name ∈ names)) as [Hin|Hin].
    + by rewrite decide_True by by apply elem_of_list_to_set.
    + rewrite decide_False; [done|]. by rewrite elem_of_list_to_set.
  - by rewrite isolate_lookup.
  - done.
  - intros ns' only only' Hin. rewrite isolate_lookup.
    by rewrite decide_True.
Qed.

Lemma isolate_all_lookup_untouched (self : Skippable) calls name :
  Forall (λ '(ns, only), name ∉ isolate_names self only) calls →
  namespaces (isolate_all self calls) !! name = namespaces self !! name.
Proof.
  unfold isolate_all. revert self.
  induction calls as [|[ns only] calls IH]; intros self Hcalls; [done|].
  apply Forall_cons in Hcalls as [Hname Hcalls]. simpl.
  rewrite IH.
  - rewrite isolate_lookup. by rewrite decide_False.
  - eapply Forall_impl; [exact Hcalls|]. by intros [ns' only'].
Qed.

(** C10.  A name that no [isolate] call of an instance covered is
    namespaced as [(None, name)]: the default namespace is the absence of
    one.  It is the same for a fresh instance of any class, so two fresh
    instances declaring the same name use the same key. *)
Theorem namespaced_default (c : Skippable_cls) (args : Args)
    (calls : list (Namespace * option (list string))) (name : string) :
  let self : Skippable := init c args in
  Forall (λ '(ns, only), name ∉ isolate_names self only) calls →
  namespaced (isolate_all self calls) name = (None, name)
  ∧ ∀ (c' : Skippable_cls) (args' : Args),
      namespaced (init c' args') name = namespaced self name.
Proof.
  intros self Hcalls. split.
  - unfold namespaced. by rewrite isolate_all_lookup_untouched.
  - done.
Qed.

(** ** The handlers *)

Section handlers.
Variable self : Skippable.

Lemma handle_stash_declared name tensor (l : locals) :
  name ∈ stashable_names (cls self) →
  handle_stash self name tensor l
  = Returns (tt, {| skips_stashed := <[name := tensor]> (skips_stashed l);
                    skips_to_pop := skips_to_pop l |}).
Proof. intros Hin. unfold handle_stash. by rewrite decide_True. Qed.

Lemma handle_stash_undeclared name tensor (l : locals) :
  name ∉ stashable_names (cls self) →
  handle_stash self name tensor l
  = Raises (RuntimeError
              (quoted name +:+ " has not been declared as stashable")).
Proof. intros Hin. unfold handle_stash. by rewrite decide_False. Qed.

Lemma handle_stash_returns name tensor (l l' : locals) u :
  handle_stash self name tensor l = Returns (u, l') →
  name ∈ stashable_names (cls self)
  ∧ skips_stashed l' = <[name := tensor]> (skips_stashed l)
  ∧ skips_to_pop l' = skips_to_pop l.
Proof.
  unfold handle_stash. case_decide; [|done]. by intros [= <- <-].
Qed.

Lemma handle_pop_undeclared name (l : locals) :
  name ∉ poppable_names (cls self) →
  handle_pop self name l
  = Raises (RuntimeError
              (quoted name +:+ " has not been declared as poppable")).
Proof. intros Hin. unfold handle_pop. by rewrite decide_False. Qed.

Lemma handle_pop_pending name tensor (l : locals) :
  name ∈ poppable_names (cls self) →
  skips_to_pop l !! name = Some tensor →
  handle_pop self name l
  = Returns (tensor, {| skips_stashed := skips_stashed l;
                        skips_to_pop := delete name (skips_to_pop l) |}).
Proof.
  intros Hin Hl. unfold handle_pop. rewrite decide_True by done.
  by rewrite Hl.
Qed.

Lemma handle_pop_consumed name (l : locals) :
  name ∈ poppable_names (cls self) →
  skips_to_pop l !! name = None →
  handle_pop self name l = Raises (KeyError name).
Proof.
  intros Hin Hl. unfold handle_pop. rewrite decide_True by done.
  by rewrite Hl.
Qed.

Lemma handle_pop_returns name tensor (l l' : locals) :
  handle_pop self name l = Returns (tensor, l') →
  name ∈ poppable_names (cls self)
  ∧ skips_to_pop l !! name = Some tensor
  ∧ skips_stashed l' = skips_stashed l
  ∧ skips_to_pop l' = delete name (skips_to_pop l).
Proof.
  unfold handle_pop. case_decide; [|done].
  destruct (skips_to_pop l !! name) as [t|] eqn:Hl; [|done].
  by intros [= <- <-].
Qed.

(** *** The loop, one yielded object at a time *)

Local Abbreviation loop := (dispatch_loop (handle_stash self) (handle_pop self)).
Local Abbreviation trace := (yielded (handle_stash self) (handle_pop self)).

Lemma loop_stash name tensor (resume : option Tensor → generator)
    (l : locals) :
  loop (Yield (stash name tensor) resume) l
  = match handle_stash self name tensor l with
    | Returns (_, l') => loop (resume None) l'
    | Raises e => Raises e
    end.
Proof. done. Qed.

Lemma loop_pop name (resume : option Tensor → generator) (l : locals) :
  loop (Yield (pop name) resume) l
  = match handle_pop self name l with
    | Returns (tensor, l') => loop (resume tensor) l'
    | Raises e => Raises e
    end.
Proof. done. Qed.

(** An undeclared [stash] among the yielded objects is where the loop
    stops. *)
Lemma loop_stash_undeclared name tensor (generator : generator)
    (l : locals) :
  stash name tensor ∈ trace generator l →
  name ∉ stashable_names (cls self) →
  loop generator l
  = Raises (RuntimeError
              (quoted name +:+ " has not been declared as stashable")).
Proof.
  intros Hin Hname. revert l Hin.
  induction generator as [output|e|op resume IH]; intros l Hin;
    [by apply elem_of_nil in Hin..|].
  simpl in Hin. apply elem_of_cons in Hin as [<-|Hin].
  { by rewrite loop_stash, handle_stash_undeclared. }
  destruct op as [name' tensor'|name'|repr];
    [| |by apply elem_of_nil in Hin].
  - rewrite loop_stash.
    destruct (handle_stash self name' tensor' l) as [[[] l']|e];
      [by apply IH | by apply elem_of_nil in Hin].
  - rewrite loop_pop.
    destruct (handle_pop self name' l) as [[t l']|e];
      [by apply IH | by apply elem_of_nil in Hin].
Qed.

Lemma loop_pop_undeclared name (generator : generator)
    (l : locals) :
  pop name ∈ trace generator l →
  name ∉ poppable_names (cls self) →
  loop generator l
  = Raises (RuntimeError
              (quoted name +:+ " has not been declared as poppable")).
Proof.
  intros Hin Hname. revert l Hin.
  induction generator as [output|e|op resume IH]; intros l Hin;
    [by apply elem_of_nil in Hin..|].
  simpl in Hin. apply elem_of_cons in Hin as [<-|Hin].
  { by rewrite loop_pop, handle_pop_undeclared. }
  destruct op as [name' tensor'|name'|repr];
    [| |by apply elem_of_nil in Hin].
  - rewrite loop_stash.
    destruct (handle_stash self name' tensor' l) as [[[] l']|e];
      [by apply IH | by apply elem_of_nil in Hin].
  - rewrite loop_pop.
    destruct (handle_pop self name' l) as [[t l']|e];
      [by apply IH | by apply elem_of_nil in Hin].
Qed.

(** Anything else among the yielded objects is where the loop stops. *)
Lemma loop_other repr (generator : generator)
    (l : locals) :
  other repr ∈ trace generator l →
  loop generator l
  = Raises (TypeError (repr +:+ " is not a command from @skippable")).
Proof.
  revert l.
  induction generator as [output|e|op resume IH]; intros l Hin;
    [by apply elem_of_nil in Hin..|].
  simpl in Hin. apply elem_of_cons in Hin as [<-|Hin]; [done|].
  destruct op as [name' tensor'|name'|repr'];
    [| |by apply elem_of_nil in Hin].
  - rewrite loop_stash.
    destruct (handle_stash self name' tensor' l) as [[[] l']|e];
      [by apply IH | by apply elem_of_nil in Hin].
  - rewrite loop_pop.
    destruct (handle_pop self name' l) as [[t l']|e];
      [by apply IH | by apply elem_of_nil in Hin].
Qed.

(** Once [name] is gone from [skips_to_pop], a [pop] of it among the
    yielded objects is where the loop stops. *)
Lemma loop_pop_consumed name (generator : generator) (l : locals) j :
  name ∈ poppable_names (cls self) →
  skips_to_pop l !! name = None →
  trace generator l !! j = Some (pop name) →
  loop generator l = Raises (KeyError name)
  ∧ length (trace generator l) = S j.
Proof.
  intros Hname. revert l j.
  induction generator as [output|e|op resume IH]; intros l j Hl Hj;
    [done..|].
  destruct j as [|j]; simpl in Hj.
  { injection Hj as ->. rewrite loop_pop. simpl.
    by rewrite handle_pop_consumed. }
  destruct op as [name' tensor'|name'|repr]; [| |done].
  - rewrite loop_stash. simpl.
    destruct (handle_stash self name' tensor' l) as [[[] l']|e] eqn:Hh;
      [|done].
    apply handle_stash_returns in Hh as (_ & _ & Hpop).
    destruct (IH None l' j) as [-> ->]; [by rewrite Hpop|done..].
  - rewrite loop_pop. simpl.
    destruct (handle_pop self name' l) as [[t l']|e] eqn:Hh; [|done].
    apply handle_pop_returns in Hh as (_ & _ & _ & Hpop).
    destruct (IH t l' j) as [-> ->]; [|done..].
    rewrite Hpop. apply lookup_delete_None. by right.
Qed.

(** The second [pop] of a name is where the loop stops. *)
Lemma loop_pop_twice name (generator : generator) (l : locals) i j :
  i < j →
  trace generator l !! i = Some (pop name) →
  trace generator l !! j = Some (pop name) →
  loop generator l = Raises (KeyError name)
  ∧ length (trace generator l) = S j.
Proof.
  revert l i j.
  induction generator as [output|e|op resume IH]; intros l i j Hij Hi Hj;
    [done..|].
  destruct j as [|j]; [lia|]. simpl in Hi, Hj.
  destruct i as [|i].
  - injection Hi as ->. rewrite loop_pop. simpl.
    destruct (handle_pop self name l) as [[t l']|e] eqn:Hh; [|done].
    apply handle_pop_returns in Hh as (Hname & _ & _ & Hpop).
    destruct (loop_pop_consumed name (resume t) l' j) as [-> ->];
      [done| |done..].
    rewrite Hpop. apply lookup_delete_eq.
  - destruct op as [name' tensor'|name'|repr]; [| |done].
    + rewrite loop_stash. simpl.
      destruct (handle_stash self name' tensor' l) as [[[] l']|e];
        [|done].
      destruct (IH None l' i j) as [-> ->]; [lia|done..].
    + rewrite loop_pop. simpl.
      destruct (handle_pop self name' l) as [[t l']|e]; [|done].
      destruct (IH t l' i j) as [-> ->]; [lia|done..].
Qed.
(** *** The dictionaries after the loop, from the objects yielded *)

Lemma last_stashed_elem_of name tensor (ops : list object) :
  last_stashed name ops = Some tensor → stash name tensor ∈ ops.
Proof.
  induction ops as [|op ops IH]; [done|]. simpl.
  destruct (last_stashed name ops) as [t|].
  { intros [= ->]. right. by apply IH. }
  destruct op as [name' t'| |]; [|done..].
  case_decide as Heq; [|done]. intros [= ->]. subst name'. left.
Qed.

Lemma existsb_is_pop_of name (ops : list object) :
  existsb (is_pop_of name) ops = true ↔ pop name ∈ ops.
Proof.
  rewrite existsb_exists. split.
  - intros (op & Hin%list_elem_of_In & Hop).
    destruct op as [|name'|]; [done| |done].
    by apply bool_decide_eq_true in Hop as ->.
  - intros Hin. exists (pop name). split; [by apply list_elem_of_In|].
    by apply bool_decide_eq_true.
Qed.

(** [skips_stashed] holds, for each name, the tensor of its last [stash];
    [skips_to_pop] has lost exactly the names that were popped. *)
Lemma loop_returns_locals (generator : generator) (l l' : locals) output :
  loop generator l = Returns (output, l') →
  (∀ name, skips_stashed l' !! name
           = match last_stashed name (trace generator l) with
             | Some tensor => Some tensor
             | None => skips_stashed l !! name
             end)
  ∧ (∀ name, skips_to_pop l' !! name
             = if existsb (is_pop_of name) (trace generator l) then None
               else skips_to_pop l !! name).
Proof.
  revert l.
  induction generator as [out|e|op resume IH]; intros l Hloop; [|done|].
  { injection Hloop as -> ->. done. }
  destruct op as [name' tensor'|name'|repr]; [| |done].
  - rewrite loop_stash in Hloop. simpl.
    destruct (handle_stash self name' tensor' l) as [[[] l1]|e] eqn:Hh;
      [|done].
    apply handle_stash_returns in Hh as (_ & Hst & Hpop).
    destruct (IH None l1 Hloop) as [IHst IHpop]. split; intros name.
    + rewrite IHst, Hst.
      destruct (last_stashed name _) as [t|]; [done|].
      case_decide as Heq; [subst; apply lookup_insert_eq|].
      by apply lookup_insert_ne.
    + by rewrite IHpop, Hpop.
  - rewrite loop_pop in Hloop. simpl.
    destruct (handle_pop self name' l) as [[t l1]|e] eqn:Hh; [|done].
    apply handle_pop_returns in Hh as (_ & _ & Hst & Hpop).
    destruct (IH t l1 Hloop) as [IHst IHpop]. split; intros name.
    + rewrite IHst, Hst. by destruct (last_stashed name _).
    + rewrite IHpop, Hpop.
      destruct (existsb _ _); [by rewrite orb_true_r|].
      rewrite orb_false_r. case_bool_decide as Heq.
      * subst. apply lookup_delete_eq.
      * by apply lookup_delete_ne.
Qed.
End handlers.

(** ** One call of [forward] *)

Section forward_properties.
Context {T : Type}.
Context `{!SkipTracker (Tensor := Tensor)
            (TensorOrTensors := TensorOrTensors) (Namespace := Namespace) T}.
Implicit Types (self : Skippable) (input : TensorOrTensors)
  (skip_tracker : T).

(** [forward], read through the names given to its stages. *)
Lemma forward_eq self input skip_tracker :
  forward self input skip_tracker
  = match dispatched self input skip_tracker with
    | Raises e => (Raises e, loaded_tracker self input skip_tracker)
    | Returns (output, l) =>
        match check_skips self l with
        | Raises e => (Raises e, loaded_tracker self input skip_tracker)
        | Returns _ =>
            match save_skips (skips_stashed l) (stashable self)
                    (loaded_tracker self input skip_tracker)
                    {| tensor_or_tensors := output |} with
            | (Raises e, skip_tracker) => (Raises e, skip_tracker)
            | (Returns batch, skip_tracker) =>
                (Returns (tensor_or_tensors batch), skip_tracker)
            end
        end
    end.
Proof.
  unfold forward, dispatched, loaded_tracker, loaded_input, initial_locals,
    loaded.
  by destruct (load_skips self skip_tracker _) as [[t batch] to_pop].
Qed.

Lemma forward_dispatch_raises self input skip_tracker e :
  dispatched self input skip_tracker = Raises e →
  forward self input skip_tracker
  = (Raises e, loaded_tracker self input skip_tracker).
Proof. intros Hd. by rewrite forward_eq, Hd. Qed.

(** Objects are yielded only by a body that is a generator. *)
Lemma commands_generator self input skip_tracker :
  commands self input skip_tracker ≠ [] →
  ∃ generator,
    commands self input skip_tracker
    = yielded (handle_stash self) (handle_pop self) generator
        (initial_locals self input skip_tracker)
    ∧ dispatched self input skip_tracker
      = dispatch_loop (handle_stash self) (handle_pop self) generator
          (initial_locals self input skip_tracker).
Proof.
  unfold commands, dispatched, dispatch.
  destruct (module self _) as [output|generator|e]; [done| |done].
  intros _. by exists generator.
Qed.

Lemma commands_elem_of self input skip_tracker op :
  op ∈ commands self input skip_tracker →
  commands self input skip_tracker ≠ [].
Proof. intros Hin Hnil. rewrite Hnil in Hin. by apply elem_of_nil in Hin. Qed.

(** C3.  A [stash] of a name outside [stashable_names], or a [pop] of a
    name outside [poppable_names], yielded by the body during a call of
    [forward], makes the call raise the [RuntimeError] that says the name
    has not been declared; the tracker is left as the loads left it. *)
Theorem undeclared_name_raises self input skip_tracker name :
  (∀ tensor,
     stash name tensor ∈ commands self input skip_tracker →
     name ∉ stashable_names (cls self) →
     forward self input skip_tracker
     = (Raises (RuntimeError
                  (quoted name +:+ " has not been declared as stashable")),
        loaded_tracker self input skip_tracker))
  ∧ (pop name ∈ commands self input skip_tracker →
     name ∉ poppable_names (cls self) →
     forward self input skip_tracker
     = (Raises (RuntimeError
                  (quoted name +:+ " has not been declared as poppable")),
        loaded_tracker self input skip_tracker)).
Proof.
  split.
  - intros tensor Hin Hname. apply forward_dispatch_raises.
    destruct (commands_generator self input skip_tracker)
      as (generator & Hc & ->); [by eapply commands_elem_of|].
    rewrite Hc in Hin. by eapply loop_stash_undeclared.
  - intros Hin Hname. apply forward_dispatch_raises.
    destruct (commands_generator self input skip_tracker)
      as (generator & Hc & ->); [by eapply commands_elem_of|].
    rewrite Hc in Hin. by eapply loop_pop_undeclared.
Qed.

(** C5.  An object that is neither a [stash] nor a [pop], yielded by the
    body during a call of [forward], makes the call raise the
    [TypeError] of [dispatch]. *)
Theorem not_a_command_raises self input skip_tracker repr :
  other repr ∈ commands self input skip_tracker →
  forward self input skip_tracker
  = (Raises (TypeError (repr +:+ " is not a command from @skippable")),
     loaded_tracker self input skip_tracker).
Proof.
  intros Hin. apply forward_dispatch_raises.
  destruct (commands_generator self input skip_tracker)
    as (generator & Hc & ->); [by eapply commands_elem_of|].
  rewrite Hc in Hin. by eapply loop_other.
Qed.

(** C6.  When the body yields [pop name] a second time during a call of
    [forward], the call stops there, raising the [KeyError] of
    [skips_to_pop.pop(name)]: no name is popped twice in one call. *)
Theorem pop_twice_raises self input skip_tracker name i j :
  i < j →
  commands self input skip_tracker !! i = Some (pop name) →
  commands self input skip_tracker !! j = Some (pop name) →
  forward self input skip_tracker
  = (Raises (KeyError name), loaded_tracker self input skip_tracker)
  ∧ length (commands self input skip_tracker) = S j.
Proof.
  intros Hij Hi Hj.
  destruct (commands_generator self input skip_tracker)
    as (generator & Hc & Hd).
  { intros Hnil. by rewrite Hnil in Hi. }
  rewrite Hc in Hi, Hj.
  destruct (loop_pop_twice self name generator _ i j Hij Hi Hj)
    as [Hloop Hlen].
  split; [|by rewrite Hc].
  apply forward_dispatch_raises. by rewrite Hd.
Qed.
(** *** The loads *)

Lemma load_skips_keys self (names : list string) skip_tracker
    (batch : Batch) (to_pop : gmap string (option Tensor)) :
  dom (foldl (λ '(skip_tracker, batch, skips_to_pop) '(ns, name),
                let '(skip_tracker, batch, tensor) :=
                  load skip_tracker batch ns name in
                (skip_tracker, batch, <[name := tensor]> skips_to_pop))
             (skip_tracker, batch, to_pop) (namespaced self <$> names)).2
  = dom to_pop ∪ list_to_set names.
Proof.
  revert skip_tracker batch to_pop.
  induction names as [|name names IH]; intros skip_tracker batch to_pop.
  { simpl. set_solver. }
  simpl. destruct (load skip_tracker batch _ name) as [[t b] tensor].
  rewrite IH, dom_insert_L. set_solver.
Qed.

(** A tensor, possibly none, is loaded for each name of
    [poppable_names], and for no other name. *)
Lemma loaded_keys self input skip_tracker :
  dom (skips_to_pop (initial_locals self input skip_tracker))
  = poppable_names (cls self).
Proof.
  unfold initial_locals, loaded, load_skips, poppable. simpl.
  rewrite load_skips_keys, dom_empty_L, list_to_set_elements_L.
  set_solver.
Qed.

(** *** The checks *)

Lemma check_skips_not_stashed self (l : locals) :
  stashable_names (cls self) ∖ dom (skips_stashed l) ≠ ∅ →
  check_skips self l
  = Raises (RuntimeError
              (comma_names (elements (stashable_names (cls self)
                                      ∖ dom (skips_stashed l)))
               +:+ " must be stashed but have not")).
Proof. intros Hne. unfold check_skips. by rewrite decide_True. Qed.

Lemma check_skips_not_popped self (l : locals) :
  stashable_names (cls self) ∖ dom (skips_stashed l) = ∅ →
  dom (skips_to_pop l) ≠ ∅ →
  check_skips self l
  = Raises (RuntimeError
              (comma_names (elements (dom (skips_to_pop l)))
               +:+ " must be popped but have not")).
Proof.
  intros He Hne. unfold check_skips.
  rewrite decide_False by (by intros []). by rewrite decide_True.
Qed.

Lemma check_skips_returns self (l : locals) u :
  check_skips self l = Returns u ↔
  stashable_names (cls self) ⊆ dom (skips_stashed l)
  ∧ skips_to_pop l = ∅.
Proof.
  unfold check_skips. split.
  - case_decide as Hst; [done|]. case_decide as Hpop; [done|]. intros _.
    split.
    + destruct (decide (stashable_names (cls self)
                        ∖ dom (skips_stashed l) = ∅)) as [He|]; [|done].
      set_solver.
    + destruct (decide (dom (skips_to_pop l) = ∅)) as [He|]; [|done].
      by apply dom_empty_inv_L.
  - intros [Hst Hpop].
    rewrite decide_False by (intros []; set_solver).
    rewrite decide_False by (intros []; by rewrite Hpop, dom_empty_L).
    by destruct u.
Qed.

(** *** The saves *)

Lemma save_skips_returns (stashed : gmap string (option Tensor))
    (names : list (option Namespace * string)) skip_tracker
    (batch : Batch) :
  (∀ ns name, (ns, name) ∈ names → is_Some (stashed !! name)) →
  ∃ batch' skip_tracker',
    save_skips stashed names skip_tracker batch
    = (Returns batch', skip_tracker').
Proof.
  revert skip_tracker batch.
  induction names as [|[ns name] names IH]; intros skip_tracker batch Hall.
  { by eexists _, _. }
  simpl. destruct (Hall ns name) as [tensor ->]; [left|].
  destruct (save skip_tracker batch ns name tensor) as [t b].
  apply IH. intros ns' name' Hin. eapply Hall. by right.
Qed.

Lemma forward_returns_inv self input skip_tracker out skip_tracker' :
  forward self input skip_tracker = (Returns out, skip_tracker') →
  ∃ output l,
    dispatched self input skip_tracker = Returns (output, l)
    ∧ stashable_names (cls self) ⊆ dom (skips_stashed l)
    ∧ skips_to_pop l = ∅.
Proof.
  rewrite forward_eq.
  destruct (dispatched self input skip_tracker) as [[output l]|e];
    [|done].
  destruct (check_skips self l) as [[]|e] eqn:Hcheck; [|done].
  intros _. exists output, l. split; [done|].
  by apply (check_skips_returns self l ()).
Qed.

(** C1.  Once [dispatch] has returned the body's output: if some names of
    [stashable_names] are not keys of [skips_stashed], [forward] raises
    the [RuntimeError] whose message lists them, each of them quoted in
    it; otherwise, if some names are left in [skips_to_pop], it raises
    the one whose message lists those, each of them quoted in it.  So a
    call of [forward] that returns has seen a [stash] of every name of
    [stashable_names] and a [pop] of every name of [poppable_names]. *)
Theorem forward_checks_every_name self input skip_tracker :
  (∀ output l,
     dispatched self input skip_tracker = Returns (output, l) →
     let not_stashed :=
       stashable_names (cls self) ∖ dom (skips_stashed l) in
     let not_popped := dom (skips_to_pop l) in
     (not_stashed ≠ ∅ →
      forward self input skip_tracker
      = (Raises (RuntimeError (comma_names (elements not_stashed)
                               +:+ " must be stashed but have not")),
         loaded_tracker self input skip_tracker)
      ∧ ∀ name, name ∈ not_stashed →
          occurs_in (quoted name) (comma_names (elements not_stashed)))
     ∧ (not_stashed = ∅ → not_popped ≠ ∅ →
        forward self input skip_tracker
        = (Raises (RuntimeError (comma_names (elements not_popped)
                                 +:+ " must be popped but have not")),
           loaded_tracker self input skip_tracker)
        ∧ ∀ name, name ∈ not_popped →
            occurs_in (quoted name) (comma_names (elements not_popped))))
  ∧ (∀ out skip_tracker',
       forward self input skip_tracker = (Returns out, skip_tracker') →
       (∀ name, name ∈ stashable_names (cls self) →
          ∃ tensor, stash name tensor ∈ commands self input skip_tracker)
       ∧ (∀ name, name ∈ poppable_names (cls self) →
            pop name ∈ commands self input skip_tracker)).
Proof.
  split.
  - intros output l Hd not_stashed not_popped. split.
    + intros Hne. split.
      * by rewrite forward_eq, Hd, check_skips_not_stashed.
      * intros name Hin. by apply comma_names_occurs, elem_of_elements.
    + intros He Hne. split.
      * by rewrite forward_eq, Hd, check_skips_not_popped.
      * intros name Hin. by apply comma_names_occurs, elem_of_elements.
  - intros out skip_tracker' Hf.
    apply forward_returns_inv in Hf as (output & l & Hd & Hst & Hpop).
    destruct (decide (commands self input skip_tracker = [])) as [Hnil|Hc].
    + (* nothing was yielded: the dictionaries are as they started *)
      assert (l = initial_locals self input skip_tracker) as ->.
      { revert Hd Hnil. unfold dispatched, commands, dispatch.
        destruct (module self _) as [o|generator|e]; [|intros Hd Hnil|done].
        - by intros [= _ <-].
        - destruct generator as [o|e|op resume]; [|done..].
          by injection Hd as _ <-. }
      split.
      * intros name Hin. apply Hst in Hin. set_solver.
      * intros name Hin. rewrite <- (loaded_keys self input skip_tracker) in Hin.
        rewrite Hpop in Hin. set_solver.
    + destruct (commands_generator self input skip_tracker Hc)
        as (generator & -> & Hloop).
      rewrite Hloop in Hd.
      apply loop_returns_locals in Hd as [Hstl Hpopl]. split.
      * intros name Hin. apply Hst, elem_of_dom in Hin as [t Ht].
        rewrite Hstl in Ht. simpl in Ht. rewrite lookup_empty in Ht.
        destruct (last_stashed name _) as [tensor|] eqn:Hlast; [|done].
        exists tensor. by eapply last_stashed_elem_of.
      * intros name Hin. apply existsb_is_pop_of.
        rewrite <- (loaded_keys self input skip_tracker) in Hin.
        apply elem_of_dom in Hin as [t Ht].
        specialize (Hpopl name). rewrite Hpop, lookup_empty in Hpopl.
        destruct (existsb _ _); [done|]. by rewrite Ht in Hpopl.
Qed.
(** C4.  When the body returns a value that is not a generator,
    [dispatch] returns that value and leaves the state of its handlers
    alone, whatever the handlers are: none is called, and nothing is
    yielded.  [forward] then raises the [RuntimeError] listing all of
    [stashable_names] when there are any, else the one listing all of
    [poppable_names] when there are any, and returns the value when
    nothing is declared. *)
Theorem plain_body_skips_handlers self input skip_tracker output :
  module self (loaded_input self input skip_tracker) = Plain output →
  (∀ (S : Type) (handle_stash : string → option Tensor → M S unit)
     (handle_pop : string → M S (option Tensor)) (s : S),
     dispatch handle_stash handle_pop self
       (loaded_input self input skip_tracker) s = Returns (output, s))
  ∧ commands self input skip_tracker = []
  ∧ (stashable_names (cls self) ≠ ∅ →
     forward self input skip_tracker
     = (Raises (RuntimeError
                  (comma_names (elements (stashable_names (cls self)))
                   +:+ " must be stashed but have not")),
        loaded_tracker self input skip_tracker))
  ∧ (stashable_names (cls self) = ∅ → poppable_names (cls self) ≠ ∅ →
     forward self input skip_tracker
     = (Raises (RuntimeError
                  (comma_names (elements (poppable_names (cls self)))
                   +:+ " must be popped but have not")),
        loaded_tracker self input skip_tracker))
  ∧ (stashable_names (cls self) = ∅ → poppable_names (cls self) = ∅ →
     forward self input skip_tracker
     = (Returns output, loaded_tracker self input skip_tracker)).
Proof.
  intros Hplain.
  assert (Hd : dispatched self input skip_tracker
               = Returns (output, initial_locals self input skip_tracker)).
  { unfold dispatched, dispatch. by rewrite Hplain. }
  assert (Hst : stashable_names (cls self)
                ∖ dom (skips_stashed
                         (initial_locals self input skip_tracker))
                = stashable_names (cls self)).
  { simpl. rewrite dom_empty_L. set_solver. }
  pose proof (loaded_keys self input skip_tracker) as Hpop.
  split_and!.
  - intros S hs hp s. unfold dispatch. by rewrite Hplain.
  - unfold commands. by rewrite Hplain.
  - intros Hne. rewrite forward_eq, Hd, check_skips_not_stashed.
    + by rewrite Hst.
    + by rewrite Hst.
  - intros He Hne. rewrite forward_eq, Hd, check_skips_not_popped.
    + by rewrite Hpop.
    + by rewrite Hst.
    + by rewrite Hpop.
  - intros He He'. rewrite forward_eq, Hd.
    assert (check_skips self (initial_locals self input skip_tracker)
            = Returns ()) as ->.
    { apply check_skips_returns. split; [set_solver|].
      apply dom_empty_inv_L. by rewrite Hpop. }
    unfold stashable. by rewrite He, elements_empty.
Qed.

(** The dictionaries [dispatch] leaves, from the objects yielded. *)
Lemma dispatched_locals self input skip_tracker output (l : locals) :
  dispatched self input skip_tracker = Returns (output, l) →
  (∀ name, skips_stashed l !! name
           = last_stashed name (commands self input skip_tracker))
  ∧ (∀ name, skips_to_pop l !! name
             = if existsb (is_pop_of name)
                    (commands self input skip_tracker) then None
               else skips_to_pop (initial_locals self input skip_tracker)
                    !! name).
Proof.
  unfold dispatched, commands, dispatch.
  destruct (module self _) as [o|generator|e]; [|intros Hloop|done].
  - intros [= _ <-]. split; [|done]. intros name. apply lookup_empty.
  - apply loop_returns_locals in Hloop as [Hst Hpop]. split; [|done].
    intros name. rewrite Hst. simpl. rewrite lookup_empty.
    by destruct (last_stashed name _).
Qed.
End forward_properties.

(** ** The calls made on the tracker *)

Section recorded.
Context {T : Type}.
Context `{!SkipTracker (Tensor := Tensor)
            (TensorOrTensors := TensorOrTensors) (Namespace := Namespace) T}.
Implicit Types (self : Skippable) (input : TensorOrTensors)
  (skip_tracker : T) (log : list call).

Lemma saved_names_app log log' :
  saved_names (log ++ log') = saved_names log ++ saved_names log'.
Proof. apply omap_app. Qed.

Lemma load_recorded skip_tracker log (batch : Batch) ns name :
  load (skip_tracker, log) batch ns name
  = (let '(t, b, tensor) := load skip_tracker batch ns name in
     ((t, log ++ [Load batch ns name]), b, tensor)).
Proof. done. Qed.

Lemma save_recorded skip_tracker log (batch : Batch) ns name tensor :
  save (skip_tracker, log) batch ns name tensor
  = (let '(t, b) := save skip_tracker batch ns name tensor in
     ((t, log ++ [Save batch ns name tensor]), b)).
Proof. done. Qed.

(** Recording changes nothing to the loads, and adds no [Save]. *)
Lemma load_skips_recorded self (names : list string) skip_tracker log
    (batch : Batch) (to_pop : gmap string (option Tensor)) :
  ∃ loads,
    foldl (λ '(skip_tracker, batch, skips_to_pop) '(ns, name),
             let '(skip_tracker, batch, tensor) :=
               load skip_tracker batch ns name in
             (skip_tracker, batch, <[name := tensor]> skips_to_pop))
          ((skip_tracker, log), batch, to_pop) (namespaced self <$> names)
    = (let '(t, b, m) :=
         foldl (λ '(skip_tracker, batch, skips_to_pop) '(ns, name),
                  let '(skip_tracker, batch, tensor) :=
                    load skip_tracker batch ns name in
                  (skip_tracker, batch, <[name := tensor]> skips_to_pop))
               (skip_tracker, batch, to_pop) (namespaced self <$> names) in
       ((t, log ++ loads), b, m))
    ∧ saved_names loads = [].
Proof.
  revert skip_tracker log batch to_pop.
  induction names as [|name names IH]; intros skip_tracker log batch to_pop.
  { exists []. simpl. by rewrite app_nil_r. }
  rewrite fmap_cons. cbn [foldl namespaced]. rewrite load_recorded.
  destruct (load skip_tracker batch _ name) as [[t b] tensor].
  destruct (IH t (log ++ [Load batch (namespaces self !! name) name]) b
              (<[name := tensor]> to_pop)) as (loads & -> & Hloads).
  exists (Load batch (namespaces self !! name) name :: loads).
  split; [|done].
  destruct (foldl _ _ _) as [[t' b'] m']. by rewrite <- app_assoc.
Qed.

Lemma loaded_recorded self input skip_tracker log :
  ∃ loads,
    loaded self input (skip_tracker, log)
    = ((loaded_tracker self input skip_tracker, log ++ loads),
       (loaded self input skip_tracker).1.2,
       (loaded self input skip_tracker).2)
    ∧ saved_names loads = [].
Proof.
  unfold loaded_tracker, loaded, load_skips, poppable.
  destruct (load_skips_recorded self
              (elements (poppable_names (cls self))) skip_tracker log
              {| tensor_or_tensors := input |} ∅) as (loads & -> & Hloads).
  exists loads. split; [|done]. by destruct (foldl _ _ _) as [[t b] m].
Qed.

Lemma dispatched_recorded self input skip_tracker log :
  dispatched self input (skip_tracker, log)
  = dispatched self input skip_tracker.
Proof.
  unfold dispatched, loaded_input, initial_locals.
  by destruct (loaded_recorded self input skip_tracker log)
    as (loads & -> & _).
Qed.

Lemma commands_recorded self input skip_tracker log :
  commands self input (skip_tracker, log)
  = commands self input skip_tracker.
Proof.
  unfold commands, loaded_input, initial_locals.
  by destruct (loaded_recorded self input skip_tracker log)
    as (loads & -> & _).
Qed.

(** Recording changes nothing to the saves; each recorded [Save] is for
    one of [names], in their order, with the tensor stashed for it. *)
Lemma save_skips_recorded (stashed : gmap string (option Tensor))
    (names : list (option Namespace * string)) skip_tracker log
    (batch : Batch) :
  ∃ saves,
    save_skips stashed names (skip_tracker, log) batch
    = ((save_skips stashed names skip_tracker batch).1,
       ((save_skips stashed names skip_tracker batch).2, log ++ saves))
    ∧ saved_names saves `prefix_of` names.*2
    ∧ (∀ batch', (save_skips stashed names skip_tracker batch).1
                 = Returns batch' → saved_names saves = names.*2)
    ∧ (∀ b ns name tensor,
         Save b ns name tensor ∈ saves → stashed !! name = Some tensor).
Proof.
  revert skip_tracker log batch.
  induction names as [|[ns name] names IH]; intros skip_tracker log batch.
  { exists []. simpl. rewrite app_nil_r. split_and!; [done..|].
    intros ???? Hin. by apply elem_of_nil in Hin. }
  cbn [save_skips]. destruct (stashed !! name) as [tensor|] eqn:Hname.
  - rewrite save_recorded.
    destruct (save skip_tracker batch ns name tensor) as [t b].
    destruct (IH t (log ++ [Save batch ns name tensor]) b)
      as (saves & -> & Hpre & Hall & Hval).
    exists (Save batch ns name tensor :: saves). split_and!.
    + by rewrite <- app_assoc.
    + simpl. by apply prefix_cons.
    + intros batch' Hret. simpl. f_equal. by eapply Hall.
    + intros b' ns' name' tensor' [[= -> -> -> ->]|Hin]%elem_of_cons;
        [done|by eapply Hval].
  - exists []. simpl. rewrite app_nil_r. split_and!; [done| |done|].
    + apply prefix_nil.
    + intros ???? Hin. by apply elem_of_nil in Hin.
Qed.
Lemma saved_names_elem_of log (b : Batch) ns name tensor :
  Save b ns name tensor ∈ log → name ∈ saved_names log.
Proof.
  intros Hin. apply list_elem_of_omap. by exists (Save b ns name tensor).
Qed.

Lemma stashable_names_snd self :
  (stashable self).*2 = elements (stashable_names (cls self)).
Proof.
  unfold stashable. rewrite <- list_fmap_compose.
  apply list_fmap_id.
Qed.

(** A recorded call of [forward] either raises, having made only loads,
    or has passed both checks and then saved once for each name of
    [stashable_names] the tensor [skips_stashed] holds for it. *)
Lemma forward_recorded self input skip_tracker :
  ∃ loads,
    saved_names loads = []
    ∧ ((∃ e, forward self input (skip_tracker, [])
             = (Raises e, (loaded_tracker self input skip_tracker, loads)))
       ∨ (∃ output l out skip_tracker' saves,
            dispatched self input skip_tracker = Returns (output, l)
            ∧ check_skips self l = Returns ()
            ∧ forward self input (skip_tracker, [])
              = (Returns out, (skip_tracker', loads ++ saves))
            ∧ saved_names saves = elements (stashable_names (cls self))
            ∧ ∀ b ns name tensor,
                Save b ns name tensor ∈ saves →
                skips_stashed l !! name = Some tensor)).
Proof.
  destruct (loaded_recorded self input skip_tracker [])
    as (loads & Hloaded & Hloads).
  exists loads. split; [done|].
  assert (Ht : loaded_tracker self input (skip_tracker, [])
               = (loaded_tracker self input skip_tracker, loads)).
  { unfold loaded_tracker at 1. by rewrite Hloaded. }
  rewrite forward_eq, dispatched_recorded, Ht.
  destruct (dispatched self input skip_tracker) as [[output l]|e] eqn:Hd;
    [|left; by exists e].
  destruct (check_skips self l) as [[]|e] eqn:Hcheck; [|left; by exists e].
  right.
  destruct (save_skips_recorded (skips_stashed l) (stashable self)
              (loaded_tracker self input skip_tracker) loads
              {| tensor_or_tensors := output |})
    as (saves & -> & _ & Hall & Hval).
  destruct (save_skips_returns (skips_stashed l) (stashable self)
              (loaded_tracker self input skip_tracker)
              {| tensor_or_tensors := output |})
    as (batch' & skip_tracker' & Hsave).
  { intros ns name Hin. apply elem_of_dom.
    apply (check_skips_returns self l ()) in Hcheck as [Hst _].
    apply Hst, elem_of_elements. rewrite <- stashable_names_snd.
    apply list_elem_of_fmap. by exists (ns, name). }
  rewrite Hsave in Hall |- *. simpl.
  exists output, l, (tensor_or_tensors batch'), skip_tracker', saves.
  split_and!; [done..| |done].
  rewrite <- stashable_names_snd. by eapply Hall.
Qed.

(** C2.  In a call of [forward], [save] is called at most once for any
    name and only for names of [stashable_names]; no [save] is made by a
    call that raises, whatever the exception, and the tracker is then as
    the loads left it; and a [save] is made only once the body has
    completed and both checks have passed. *)
Theorem saves_once_after_checks self input skip_tracker res
    skip_tracker' log :
  forward self input (skip_tracker, []) = (res, (skip_tracker', log)) →
  NoDup (saved_names log)
  ∧ (∀ name, name ∈ saved_names log → name ∈ stashable_names (cls self))
  ∧ (∀ e, res = Raises e →
       saved_names log = []
       ∧ skip_tracker' = loaded_tracker self input skip_tracker)
  ∧ (saved_names log ≠ [] →
     ∃ output l,
       dispatched self input skip_tracker = Returns (output, l)
       ∧ stashable_names (cls self) ⊆ dom (skips_stashed l)
       ∧ skips_to_pop l = ∅).
Proof.
  intros Hf.
  destruct (forward_recorded self input skip_tracker)
    as (loads & Hloads & [(e & He)|Hok]).
  - rewrite He in Hf. injection Hf as <- <- <-. rewrite Hloads.
    split_and!; [constructor| |done..].
    intros name Hin. by apply elem_of_nil in Hin.
  - destruct Hok
      as (output & l & out & t' & saves & Hd & Hcheck & Hok & Hsaves & _).
    rewrite Hok in Hf. injection Hf as <- <- <-.
    rewrite saved_names_app, Hloads, Hsaves. simpl. split_and!.
    + apply NoDup_elements.
    + intros name Hin. by apply elem_of_elements.
    + done.
    + intros _. exists output, l. split; [done|].
      by apply (check_skips_returns self l ()).
Qed.

(** C8.  A [stash] of a declared name never raises, whether or not the
    name was stashed before, and the new tensor replaces the old one.
    When [forward] returns, [save] has been called exactly once for each
    name of [stashable_names], and every tensor it was given is the one
    of the last [stash] of its name. *)
Theorem last_stash_wins self input skip_tracker :
  (∀ name tensor (l : locals),
     name ∈ stashable_names (cls self) →
     ∃ l', handle_stash self name tensor l = Returns ((), l')
           ∧ skips_stashed l' !! name = Some tensor
           ∧ (∀ name', name' ≠ name →
                skips_stashed l' !! name' = skips_stashed l !! name')
           ∧ skips_to_pop l' = skips_to_pop l)
  ∧ (∀ out skip_tracker' log,
       forward self input (skip_tracker, [])
       = (Returns out, (skip_tracker', log)) →
       saved_names log = elements (stashable_names (cls self))
       ∧ ∀ b ns name tensor,
           Save b ns name tensor ∈ log →
           last_stashed name (commands self input skip_tracker)
           = Some tensor).
Proof.
  split.
  - intros name tensor l Hname. eexists.
    split; [by apply handle_stash_declared|]. simpl. split_and!.
    + apply lookup_insert_eq.
    + intros name' Hne. by apply lookup_insert_ne.
    + done.
  - intros out skip_tracker' log Hf.
    destruct (forward_recorded self input skip_tracker)
      as (loads & Hloads & [(e & He)|Hok]).
    { by rewrite He in Hf. }
    destruct Hok
      as (output & l & out' & t' & saves & Hd & _ & Hok & Hsaves & Hval).
    rewrite Hok in Hf. injection Hf as <- <- <-. split.
    + by rewrite saved_names_app, Hloads, Hsaves.
    + intros b ns name tensor [Hin|Hin]%elem_of_app.
      * apply saved_names_elem_of in Hin. rewrite Hloads in Hin.
        by apply elem_of_nil in Hin.
      * apply Hval in Hin.
        apply dispatched_locals in Hd as [Hst _]. by rewrite <- Hst.
Qed.
End recorded.

End properties.

(** * The theorems at work on the example pipeline *)

Section witnesses.
Import Example.

Ltac decided := apply (bool_decide_unpack _); vm_compute; exact I.

Lemma forward_checks_every_name_witness :
  let l1 : locals :=
    {| skips_stashed := {["a" := Some 7]}; skips_to_pop := ∅ |} in
  let l2 : locals :=
    {| skips_stashed := ∅; skips_to_pop := {["a" := None]} |} in
  (dispatched (new Forgetful) 7 fresh = Returns (7, l1)
   ∧ stashable_names (cls (new Forgetful)) ∖ dom (skips_stashed l1) ≠ ∅
   ∧ forward (new Forgetful) 7 fresh
     = (Raises (RuntimeError "'b' must be stashed but have not"), fresh))
  ∧ (dispatched (new Lazy) 7 fresh = Returns (7, l2)
     ∧ stashable_names (cls (new Lazy)) ∖ dom (skips_stashed l2) = ∅
     ∧ dom (skips_to_pop l2) ≠ ∅
     ∧ forward (new Lazy) 7 fresh
       = (Raises (RuntimeError "'a' must be popped but have not"), fresh))
  ∧ (forward (new Layer1) 7 fresh
     = (Returns 14, <[(None, "b") := Some 8]> (<[(None, "a") := Some 7]> fresh))
     ∧ ∃ tensor, stash "b" tensor ∈ commands (new Layer1) 7 fresh).
Proof.
  intros l1 l2.
  assert (H1 : dispatched (new Forgetful) 7 fresh = Returns (7, l1))
    by (vm_compute; reflexivity).
  assert (H2 : stashable_names (cls (new Forgetful))
               ∖ dom (skips_stashed l1) ≠ ∅) by decided.
  assert (H3 : dispatched (new Lazy) 7 fresh = Returns (7, l2))
    by (vm_compute; reflexivity).
  assert (H4 : stashable_names (cls (new Lazy)) ∖ dom (skips_stashed l2) = ∅)
    by (vm_compute; reflexivity).
  assert (H5 : dom (skips_to_pop l2) ≠ ∅) by decided.
  assert (H6 : forward (new Layer1) 7 fresh
               = (Returns 14, <[(None, "b") := Some 8]>
                                (<[(None, "a") := Some 7]> fresh)))
    by (vm_compute; reflexivity).
  assert (H7 : "b" ∈ stashable_names (cls (new Layer1))) by decided.
  split_and!; [exact H1|exact H2| |exact H3|exact H4|exact H5| |exact H6|].
  - exact (proj1 (proj1 (proj1 (forward_checks_every_name _ 7 fresh)
                           _ _ H1) H2)).
  - exact (proj1 (proj2 (proj1 (forward_checks_every_name _ 7 fresh)
                           _ _ H3) H4 H5)).
  - exact (proj1 (proj2 (forward_checks_every_name _ 7 fresh) _ _ H6)
             "b" H7).
Defined.

Lemma saves_once_after_checks_witness :
  let log : list call :=
    [Save {| tensor_or_tensors := 14 |} None "a" (Some 7);
     Save {| tensor_or_tensors := 14 |} None "b" (Some 8)] in
  let saved := <[(None, "b") := Some 8]> (<[(None, "a") := Some 7]> fresh) in
  (forward (new Layer1) 7 (fresh, []) = (Returns 14, (saved, log))
   ∧ NoDup (saved_names log))
  ∧ (forward (new Forgetful) 7 (fresh, [])
     = (Raises (RuntimeError "'b' must be stashed but have not"), (fresh, []))
     ∧ fresh = loaded_tracker (new Forgetful) 7 fresh).
Proof.
  intros log saved.
  assert (H1 : forward (new Layer1) 7 (fresh, [])
               = (Returns 14, (saved, log))) by (vm_compute; reflexivity).
  assert (H2 : forward (new Forgetful) 7 (fresh, [])
               = (Raises (RuntimeError "'b' must be stashed but have not"),
                  (fresh, []))) by (vm_compute; reflexivity).
  split; (split; [eassumption|]).
  - exact (proj1 (saves_once_after_checks _ _ _ _ _ _ H1)).
  - exact (proj2 (proj1 (proj2 (proj2
             (saves_once_after_checks _ _ _ _ _ _ H2))) _ eq_refl)).
Defined.

Lemma undeclared_name_raises_witness :
  (stash "z" (Some 7) ∈ commands (new StashUndeclared) 7 fresh
   ∧ "z" ∉ stashable_names (cls (new StashUndeclared))
   ∧ forward (new StashUndeclared) 7 fresh
     = (Raises (RuntimeError "'z' has not been declared as stashable"),
        fresh))
  ∧ (pop "z" ∈ commands (new PopUndeclared) 7 fresh
     ∧ "z" ∉ poppable_names (cls (new PopUndeclared))
     ∧ forward (new PopUndeclared) 7 fresh
       = (Raises (RuntimeError "'z' has not been declared as poppable"),
          fresh)).
Proof.
  assert (H1 : stash "z" (Some 7) ∈ commands (new StashUndeclared) 7 fresh)
    by (vm_compute; left).
  assert (H2 : "z" ∉ stashable_names (cls (new StashUndeclared)))
    by decided.
  assert (H3 : pop "z" ∈ commands (new PopUndeclared) 7 fresh)
    by (vm_compute; left).
  assert (H4 : "z" ∉ poppable_names (cls (new PopUndeclared))) by decided.
  split.
  - split_and!; [exact H1|exact H2|].
    exact (proj1 (undeclared_name_raises _ 7 fresh "z") _ H1 H2).
  - split_and!; [exact H3|exact H4|].
    exact (proj2 (undeclared_name_raises _ 7 fresh "z") H3 H4).
Defined.

Lemma plain_body_skips_handlers_witness :
  (module (new PlainStash) (loaded_input (new PlainStash) 7 fresh) = Plain 8
   ∧ stashable_names (cls (new PlainStash)) ≠ ∅
   ∧ forward (new PlainStash) 7 fresh
     = (Raises (RuntimeError "'a' must be stashed but have not"), fresh))
  ∧ (module (new Lazy) (loaded_input (new Lazy) 7 fresh) = Plain 7
     ∧ stashable_names (cls (new Lazy)) = ∅
     ∧ poppable_names (cls (new Lazy)) ≠ ∅
     ∧ forward (new Lazy) 7 fresh
       = (Raises (RuntimeError "'a' must be popped but have not"), fresh)).
Proof.
  assert (H1 : module (new PlainStash) (loaded_input (new PlainStash) 7 fresh)
               = Plain 8) by reflexivity.
  assert (H2 : stashable_names (cls (new PlainStash)) ≠ ∅) by decided.
  assert (H3 : module (new Lazy) (loaded_input (new Lazy) 7 fresh) = Plain 7)
    by reflexivity.
  assert (H4 : stashable_names (cls (new Lazy)) = ∅) by reflexivity.
  assert (H5 : poppable_names (cls (new Lazy)) ≠ ∅) by decided.
  split.
  - split_and!; [exact H1|exact H2|].
    exact (proj1 (proj2 (proj2
             (plain_body_skips_handlers _ 7 fresh 8 H1))) H2).
  - split_and!; [exact H3|exact H4|exact H5|].
    exact (proj1 (proj2 (proj2 (proj2
             (plain_body_skips_handlers _ 7 fresh 7 H3)))) H4 H5).
Defined.

Lemma not_a_command_raises_witness :
  other "42" ∈ commands (new YieldsNumber) 7 fresh
  ∧ forward (new YieldsNumber) 7 fresh
    = (Raises (TypeError "42 is not a command from @skippable"), fresh).
Proof.
  assert (H : other "42" ∈ commands (new YieldsNumber) 7 fresh)
    by (vm_compute; left).
  split; [exact H|]. exact (not_a_command_raises _ _ _ _ H).
Defined.

Lemma pop_twice_raises_witness :
  commands (new PopTwice) 7 fresh !! 0 = Some (pop "a")
  ∧ commands (new PopTwice) 7 fresh !! 1 = Some (pop "a")
  ∧ forward (new PopTwice) 7 fresh = (Raises (KeyError "a"), fresh)
  ∧ length (commands (new PopTwice) 7 fresh) = 2.
Proof.
  assert (H0 : commands (new PopTwice) 7 fresh !! 0 = Some (pop "a"))
    by reflexivity.
  assert (H1 : commands (new PopTwice) 7 fresh !! 1 = Some (pop "a"))
    by reflexivity.
  split_and!; [exact H0|exact H1|..].
  - exact (proj1 (pop_twice_raises _ 7 fresh "a" 0 1 (le_n 1) H0 H1)).
  - exact (proj2 (pop_twice_raises _ 7 fresh "a" 0 1 (le_n 1) H0 H1)).
Defined.

Lemma last_stash_wins_witness :
  let log : list call :=
    [Save {| tensor_or_tensors := 7 |} None "a" (Some 2)] in
  let saved := <[(None, "a") := Some 2]> fresh in
  forward (new StashTwice) 7 (fresh, []) = (Returns 7, (saved, log))
  ∧ last_stashed "a" (commands (new StashTwice) 7 fresh) = Some (Some 2)
  ∧ saved_names log = ["a"].
Proof.
  intros log saved.
  assert (H1 : forward (new StashTwice) 7 (fresh, [])
               = (Returns 7, (saved, log))) by (vm_compute; reflexivity).
  assert (H2 : Save {| tensor_or_tensors := 7 |} None "a" (Some 2) ∈ log)
    by left.
  split_and!; [exact H1|..].
  - exact (proj2 (proj2 (last_stash_wins _ 7 fresh) _ _ _ H1) _ _ _ _ H2).
  - exact (proj1 (proj2 (last_stash_wins _ 7 fresh) _ _ _ H1)).
Defined.

Lemma isolate_assigns_exactly_witness :
  "a" ∈ isolate_names (new Layer1) (Some ["a"])
  ∧ namespaces (isolate (isolate (new Layer1) 1 None) 2 (Some ["a"])) !! "a"
    = Some 2.
Proof.
  assert (H : "a" ∈ isolate_names (new Layer1) (Some ["a"])) by decided.
  split; [exact H|].
  exact (proj2 (proj2 (proj2 (isolate_assigns_exactly (new Layer1) 2 "a")))
           1 None (Some ["a"]) H).
Defined.

Lemma namespaced_default_witness :
  Forall (λ '(ns, only), "a" ∉ isolate_names (new Layer1) only)
    [(1, Some ["b"])]
  ∧ namespaced (isolate_all (new Layer1) [(1, Some ["b"])]) "a"
    = (None, "a").
Proof.
  assert (H : Forall (λ '(ns, only), "a" ∉ isolate_names (new Layer1) only)
                [(1, Some ["b"])]).
  { constructor; [decided|constructor]. }
  split; [exact H|].
  exact (proj1 (namespaced_default Layer1 () [(1, Some ["b"])] "a" H)).
Defined.
End witnesses.

(** * Further properties of the module *)

Section more_properties.
Context {Tensor TensorOrTensors Namespace Args : Type}.

Local Abbreviation Skippable := (Skippable (Tensor := Tensor)
  (TensorOrTensors := TensorOrTensors) (Namespace := Namespace) (Args := Args)).
Local Abbreviation Skippable_cls := (Skippable_cls (Tensor := Tensor)
  (TensorOrTensors := TensorOrTensors) (Args := Args)).
Local Abbreviation SkippableModule := (SkippableModule (Tensor := Tensor)
  (TensorOrTensors := TensorOrTensors)).
Local Abbreviation object := (object (Tensor := Tensor)).
Local Abbreviation generator := (generator (Tensor := Tensor)
  (TensorOrTensors := TensorOrTensors)).
Local Abbreviation locals := (locals (Tensor := Tensor)).
Local Abbreviation Batch := (Batch (TensorOrTensors := TensorOrTensors)).
Local Abbreviation call := (call (Tensor := Tensor)
  (TensorOrTensors := TensorOrTensors) (Namespace := Namespace)).

(** ** [isolate] *)

Lemma Skippable_eq (self self' : Skippable) :
  cls self = cls self' →
  module self = module self' →
  (∀ name, namespaces self !! name = namespaces self' !! name) →
  self = self'.
Proof.
  destruct self, self'. simpl. intros -> -> Hns. f_equal. by apply map_eq.
Qed.

(** X2.  Calls of [isolate] compose as assignments do: a call repeated
    changes nothing more, a later call on the same names replaces the
    earlier one, and two calls on disjoint sets of names commute. *)
Theorem isolate_composes (self : Skippable) (ns ns' : Namespace)
    (only only' : option (list string)) :
  isolate (isolate self ns only) ns only = isolate self ns only
  ∧ isolate (isolate self ns' only) ns only = isolate self ns only
  ∧ (isolate_names self only ## isolate_names self only' →
     isolate (isolate self ns only) ns' only'
     = isolate (isolate self ns' only') ns only).
Proof.
  split_and!.
  - apply Skippable_eq; [done..|]. intros name. rewrite !isolate_lookup.
    change (isolate_names (isolate self ns only) only)
      with (isolate_names self only).
    by case_decide.
  - apply Skippable_eq; [done..|]. intros name. rewrite !isolate_lookup.
    change (isolate_names (isolate self ns' only) only)
      with (isolate_names self only).
    by case_decide.
  - intros Hdisj. apply Skippable_eq; [done..|]. intros name.
    rewrite !isolate_lookup.
    change (isolate_names (isolate self ns only) only')
      with (isolate_names self only').
    change (isolate_names (isolate self ns' only') only)
      with (isolate_names self only).
    repeat case_decide; [|done..]. set_solver.
Qed.

(** ** [stashable] and [poppable] *)

Lemma namespaced_names (self : Skippable) (names : list string) :
  (namespaced self <$> names).*2 = names.
Proof. rewrite <- list_fmap_compose. apply list_fmap_id. Qed.

Lemma elem_of_namespaced (self : Skippable) (names : list string) ns name :
  (ns, name) ∈ namespaced self <$> names
  ↔ name ∈ names ∧ ns = namespaces self !! name.
Proof.
  rewrite list_elem_of_fmap. unfold namespaced. split.
  - by intros (name' & [= -> ->] & Hin).
  - intros [Hin ->]. by exists name.
Qed.

(** X3.  [stashable()] and [poppable()] yield each declared name exactly
    once, paired with the namespace [isolate] last gave it, or with [None].
    After [isolate(ns)] every pair they yield carries [ns]. *)
Theorem declared_names_with_namespaces (self : Skippable) :
  NoDup (stashable self).*2 ∧ NoDup (poppable self).*2
  ∧ (∀ ns name, (ns, name) ∈ stashable self
                ↔ name ∈ stashable_names (cls self)
                  ∧ ns = namespaces self !! name)
  ∧ (∀ ns name, (ns, name) ∈ poppable self
                ↔ name ∈ poppable_names (cls self)
                  ∧ ns = namespaces self !! name)
  ∧ (∀ ns0 ns name,
       (ns, name) ∈ stashable (isolate self ns0 None)
                    ++ poppable (isolate self ns0 None) →
       ns = Some ns0).
Proof.
  unfold stashable, poppable. split_and!.
  - rewrite namespaced_names. apply NoDup_elements.
  - rewrite namespaced_names. apply NoDup_elements.
  - intros ns name. by rewrite elem_of_namespaced, elem_of_elements.
  - intros ns name. by rewrite elem_of_namespaced, elem_of_elements.
  - intros ns0 ns name.
    rewrite elem_of_app, !elem_of_namespaced, !elem_of_elements.
    intros [[Hin ->]|[Hin ->]]; rewrite isolate_lookup;
      (rewrite decide_True; [done|simpl in *; set_solver]).
Qed.

(** ** More on the loop *)

Section more_handlers.
Variable self : Skippable.

Local Abbreviation loop := (dispatch_loop (handle_stash self) (handle_pop self)).
Local Abbreviation trace := (yielded (handle_stash self) (handle_pop self)).
Local Abbreviation sent := (answered (handle_stash self) (handle_pop self)).

Lemma last_stashed_is_Some name tensor (ops : list object) :
  stash name tensor ∈ ops → is_Some (last_stashed name ops).
Proof.
  induction ops as [|op ops IH]; intros Hin; [by apply elem_of_nil in Hin|].
  simpl. apply elem_of_cons in Hin as [<-|Hin].
  - destruct (last_stashed name ops); [done|]. by rewrite decide_True.
  - by destruct (IH Hin) as [t ->].
Qed.

(** A loop that returns has been handed declared commands only. *)
Lemma loop_returns_declared (generator : generator) (l l' : locals) output :
  loop generator l = Returns (output, l') →
  Forall (declared self) (trace generator l).
Proof.
  revert l.
  induction generator as [out|e|op resume IH]; intros l Hloop;
    [constructor|done|].
  destruct op as [name tensor|name|repr]; [| |done].
  - rewrite loop_stash in Hloop. simpl.
    destruct (handle_stash self name tensor l) as [[[] l1]|e] eqn:Hh; [|done].
    apply handle_stash_returns in Hh as (Hname & _ & _).
    constructor; [done|]. by eapply IH.
  - rewrite loop_pop in Hloop. simpl.
    destruct (handle_pop self name l) as [[t l1]|e] eqn:Hh; [|done].
    apply handle_pop_returns in Hh as (Hname & _ & _ & _).
    constructor; [done|]. by eapply IH.
Qed.

(** A loop that returns has popped no name twice, and only names that were
    in [skips_to_pop]. *)
Lemma loop_returns_pops (generator : generator) (l l' : locals) output :
  loop generator l = Returns (output, l') →
  NoDup (pop_names (trace generator l))
  ∧ ∀ name, name ∈ pop_names (trace generator l) →
            is_Some (skips_to_pop l !! name).
Proof.
  revert l.
  induction generator as [out|e|op resume IH]; intros l Hloop; [|done|].
  { split; [constructor|]. intros name Hin. by apply elem_of_nil in Hin. }
  destruct op as [name tensor|name|repr]; [| |done].
  - rewrite loop_stash in Hloop. simpl.
    destruct (handle_stash self name tensor l) as [[[] l1]|e] eqn:Hh; [|done].
    apply handle_stash_returns in Hh as (_ & _ & Hpop).
    rewrite <- Hpop. by eapply IH.
  - rewrite loop_pop in Hloop. simpl.
    destruct (handle_pop self name l) as [[t l1]|e] eqn:Hh; [|done].
    apply handle_pop_returns in Hh as (_ & Hl & _ & Hpop).
    destruct (IH t l1 Hloop) as [Hnodup Hin]. split.
    + constructor; [|done]. intros Hname%Hin.
      rewrite Hpop, lookup_delete_eq in Hname. by destruct Hname.
    + intros name' [->|Hname%Hin]%elem_of_cons; [by eexists|].
      rewrite Hpop in Hname. apply lookup_delete_is_Some in Hname. tauto.
Qed.

(** The tensor sent for a [pop] is the one [skips_to_pop] held. *)
Lemma answered_lookup (generator : generator) (l : locals) name tensor :
  (name, tensor) ∈ sent generator l → skips_to_pop l !! name = Some tensor.
Proof.
  revert l.
  induction generator as [out|e|op resume IH]; intros l Hin;
    [by apply elem_of_nil in Hin..|].
  simpl in Hin. destruct op as [name' tensor'|name'|repr];
    [| |by apply elem_of_nil in Hin].
  - destruct (handle_stash self name' tensor' l) as [[[] l1]|e] eqn:Hh;
      [|by apply elem_of_nil in Hin].
    apply handle_stash_returns in Hh as (_ & _ & Hpop).
    rewrite <- Hpop. by eapply IH.
  - destruct (handle_pop self name' l) as [[t l1]|e] eqn:Hh;
      [|by apply elem_of_nil in Hin].
    apply handle_pop_returns in Hh as (_ & Hl & _ & Hpop).
    apply elem_of_cons in Hin as [[= -> ->]|Hin]; [done|].
    apply IH in Hin. rewrite Hpop in Hin.
    by apply lookup_delete_Some in Hin as [_ Hin].
Qed.

(** The names answered are the names popped, when the loop returns. *)
Lemma answered_names (generator : generator) (l l' : locals) output :
  loop generator l = Returns (output, l') →
  (sent generator l).*1 = pop_names (trace generator l).
Proof.
  revert l.
  induction generator as [out|e|op resume IH]; intros l Hloop; [done..|].
  destruct op as [name tensor|name|repr]; [| |done].
  - rewrite loop_stash in Hloop. simpl.
    destruct (handle_stash self name tensor l) as [[[] l1]|e]; [|done].
    by eapply IH.
  - rewrite loop_pop in Hloop. simpl.
    destruct (handle_pop self name l) as [[t l1]|e]; [|done].
    simpl. f_equal. by eapply IH.
Qed.

Lemma elem_of_pop_names name (ops : list object) :
  name ∈ pop_names ops ↔ pop name ∈ ops.
Proof.
  unfold pop_names. rewrite list_elem_of_omap. split.
  - intros (op & Hin & Hop). destruct op as [|name'|]; [done| |done].
    by injection Hop as ->.
  - intros Hin. by exists (pop name).
Qed.
End more_handlers.

(** ** More on one call of [forward] *)

Section more_forward.
Context {T : Type}.
Context `{!SkipTracker (Tensor := Tensor)
            (TensorOrTensors := TensorOrTensors) (Namespace := Namespace) T}.
Implicit Types (self : Skippable) (input : TensorOrTensors)
  (skip_tracker : T).

(** Once both checks pass, the saves are made and [forward] returns. *)
Lemma forward_returns_of_checks self input skip_tracker output (l : locals) :
  dispatched self input skip_tracker = Returns (output, l) →
  stashable_names (cls self) ⊆ dom (skips_stashed l) →
  skips_to_pop l = ∅ →
  ∃ batch skip_tracker',
    save_skips (skips_stashed l) (stashable self)
      (loaded_tracker self input skip_tracker)
      {| tensor_or_tensors := output |} = (Returns batch, skip_tracker')
    ∧ forward self input skip_tracker
      = (Returns (tensor_or_tensors batch), skip_tracker').
Proof.
  intros Hd Hst Hpop.
  destruct (save_skips_returns (skips_stashed l) (stashable self)
              (loaded_tracker self input skip_tracker)
              {| tensor_or_tensors := output |})
    as (batch & skip_tracker' & Hsave).
  { intros ns name Hin. apply elem_of_dom, Hst.
    apply elem_of_namespaced in Hin as [Hin _].
    by apply elem_of_elements in Hin. }
  exists batch, skip_tracker'. split; [done|].
  rewrite forward_eq, Hd.
  assert (check_skips self l = Returns ()) as ->
    by by apply check_skips_returns.
  by rewrite Hsave.
Qed.

(** What [dispatch] was handed, when it returns. *)
Lemma dispatched_commands self input skip_tracker output (l : locals) :
  dispatched self input skip_tracker = Returns (output, l) →
  Forall (declared self) (commands self input skip_tracker)
  ∧ NoDup (pop_names (commands self input skip_tracker))
  ∧ (answers self input skip_tracker).*1
    = pop_names (commands self input skip_tracker).
Proof.
  unfold dispatched, commands, answers, dispatch.
  destruct (module self _) as [o|generator|e]; [|intros Hloop|done].
  - intros _. split_and!; [constructor|constructor|done].
  - split_and!.
    + by eapply loop_returns_declared.
    + by eapply loop_returns_pops.
    + by eapply answered_names.
Qed.

Lemma forward_returns_covers self input skip_tracker output (l : locals) :
  dispatched self input skip_tracker = Returns (output, l) →
  (stashable_names (cls self) ⊆ dom (skips_stashed l)
   ↔ ∀ name, name ∈ stashable_names (cls self) →
       ∃ tensor, stash name tensor ∈ commands self input skip_tracker)
  ∧ (skips_to_pop l = ∅
     ↔ ∀ name, name ∈ poppable_names (cls self) →
         pop name ∈ commands self input skip_tracker).
Proof.
  intros Hd. apply dispatched_locals in Hd as [Hst Hpop].
  pose proof (loaded_keys self input skip_tracker) as Hkeys. split; split.
  - intros Hsub name [t Ht]%Hsub%elem_of_dom. rewrite Hst in Ht.
    exists t. by apply last_stashed_elem_of.
  - intros Hall name [tensor Hin]%Hall. apply elem_of_dom. rewrite Hst.
    by eapply last_stashed_is_Some.
  - intros He name Hname. apply existsb_is_pop_of.
    rewrite <- Hkeys in Hname. apply elem_of_dom in Hname as [t Ht].
    specialize (Hpop name). rewrite He, lookup_empty in Hpop.
    destruct (existsb _ _); [done|]. by rewrite Ht in Hpop.
  - intros Hall. apply map_eq. intros name. rewrite lookup_empty, Hpop.
    destruct (existsb _ _) eqn:Hex; [done|].
    apply not_elem_of_dom. rewrite Hkeys. intros Hin%Hall%existsb_is_pop_of.
    by rewrite Hin in Hex.
Qed.

(** X4.  [forward] returns exactly when the body runs to its end without an
    exception, yields a [stash] for every name of [stashable_names] and a
    [pop] for every name of [poppable_names]. *)
Theorem forward_returns_iff self input skip_tracker :
  (∃ out skip_tracker',
     forward self input skip_tracker = (Returns out, skip_tracker'))
  ↔ (∃ output l, dispatched self input skip_tracker = Returns (output, l))
    ∧ (∀ name, name ∈ stashable_names (cls self) →
         ∃ tensor, stash name tensor ∈ commands self input skip_tracker)
    ∧ (∀ name, name ∈ poppable_names (cls self) →
         pop name ∈ commands self input skip_tracker).
Proof.
  split.
  - intros (out & t' & Hf).
    apply forward_returns_inv in Hf as (output & l & Hd & Hst & Hpop).
    destruct (forward_returns_covers _ _ _ _ _ Hd) as [Hst' Hpop'].
    split_and!; [by eauto|by apply Hst'|by apply Hpop'].
  - intros ((output & l & Hd) & Hst & Hpop).
    destruct (forward_returns_covers _ _ _ _ _ Hd) as [Hst' Hpop'].
    destruct (forward_returns_of_checks self input skip_tracker output l)
      as (batch & t' & _ & Hf); [done|by apply Hst'|by apply Hpop'|].
    by eauto.
Qed.

Lemma returning_call_pops self input skip_tracker output (l : locals) :
  dispatched self input skip_tracker = Returns (output, l) →
  skips_to_pop l = ∅ →
  pop_names (commands self input skip_tracker)
  ≡ₚ elements (poppable_names (cls self)).
Proof.
  intros Hd Hpop.
  destruct (dispatched_commands _ _ _ _ _ Hd) as (Hdecl & Hnodup & _).
  apply NoDup_Permutation; [done|apply NoDup_elements|]. intros name.
  rewrite elem_of_elements, elem_of_pop_names. split.
  - intros Hin. rewrite Forall_forall in Hdecl. by apply Hdecl in Hin.
  - by apply (forward_returns_covers _ _ _ _ _ Hd).
Qed.

(** X5.  In a call of [forward] that returns, the body has yielded only
    [stash]es of stashable names and [pop]s of poppable names, and the names
    it popped are those of [poppable_names], each exactly once. *)
Theorem returning_call_is_exact self input skip_tracker out skip_tracker' :
  forward self input skip_tracker = (Returns out, skip_tracker') →
  Forall (declared self) (commands self input skip_tracker)
  ∧ pop_names (commands self input skip_tracker)
    ≡ₚ elements (poppable_names (cls self)).
Proof.
  intros Hf.
  apply forward_returns_inv in Hf as (output & l & Hd & Hst & Hpop).
  split; [by eapply dispatched_commands|by eapply returning_call_pops].
Qed.

(** X6.  An exception of [forward] is the one [dispatch] raised or the one
    of a check that failed, never one of the loop that saves; the tracker is
    then as the loads left it. *)
Theorem failures_come_before_saves self input skip_tracker e skip_tracker' :
  forward self input skip_tracker = (Raises e, skip_tracker') →
  skip_tracker' = loaded_tracker self input skip_tracker
  ∧ (dispatched self input skip_tracker = Raises e
     ∨ ∃ output l,
         dispatched self input skip_tracker = Returns (output, l)
         ∧ let not_stashed :=
             stashable_names (cls self) ∖ dom (skips_stashed l) in
           let not_popped := dom (skips_to_pop l) in
           (not_stashed ≠ ∅
            ∧ e = RuntimeError (comma_names (elements not_stashed)
                                +:+ " must be stashed but have not"))
           ∨ (not_stashed = ∅ ∧ not_popped ≠ ∅
              ∧ e = RuntimeError (comma_names (elements not_popped)
                                  +:+ " must be popped but have not"))).
Proof.
  rewrite forward_eq.
  destruct (dispatched self input skip_tracker) as [[output l]|e'] eqn:Hd.
  - destruct (decide (stashable_names (cls self) ∖ dom (skips_stashed l) = ∅))
      as [Hst|Hst].
    + destruct (decide (dom (skips_to_pop l) = ∅)) as [Hpop|Hpop].
      * destruct (forward_returns_of_checks self input skip_tracker output l)
          as (batch & t' & Hsave & _);
          [done|set_solver|by apply dom_empty_inv_L|].
        assert (check_skips self l = Returns ()) as ->.
        { apply check_skips_returns. split; [set_solver|].
          by apply dom_empty_inv_L. }
        by rewrite Hsave.
      * rewrite check_skips_not_popped by done. intros [= <- <-].
        split; [done|]. right. exists output, l. split; [done|].
        right. by split_and!.
    + rewrite check_skips_not_stashed by done. intros [= <- <-].
      split; [done|]. right. exists output, l. split; [done|].
      left. by split.
  - intros [= <- <-]. split; [done|]. by left.
Qed.


(** *** What passes through the batch *)

Lemma load_skips_batch self (names : list string) skip_tracker
    (batch : Batch) (to_pop : gmap string (option Tensor)) :
  (∀ t (b : Batch) ns name, (load t b ns name).1.2 = b) →
  (foldl (λ '(skip_tracker, batch, skips_to_pop) '(ns, name),
            let '(skip_tracker, batch, tensor) :=
              load skip_tracker batch ns name in
            (skip_tracker, batch, <[name := tensor]> skips_to_pop))
         (skip_tracker, batch, to_pop) (namespaced self <$> names)).1.2
  = batch.
Proof.
  intros Hload. revert skip_tracker batch to_pop.
  induction names as [|name names IH]; intros skip_tracker batch to_pop;
    [done|].
  rewrite fmap_cons. cbn [foldl namespaced].
  specialize (Hload skip_tracker batch (namespaces self !! name) name).
  destruct (load skip_tracker batch _ name) as [[t b] tensor].
  simpl in Hload. subst b. apply IH.
Qed.

Lemma save_skips_batch (stashed : gmap string (option Tensor))
    (names : list (option Namespace * string)) skip_tracker (batch : Batch)
    batch' skip_tracker' :
  (∀ t (b : Batch) ns name tensor, (save t b ns name tensor).2 = b) →
  save_skips stashed names skip_tracker batch = (Returns batch', skip_tracker') →
  batch' = batch.
Proof.
  intros Hsave. revert skip_tracker batch.
  induction names as [|[ns name] names IH]; intros skip_tracker batch.
  { by intros [= <- _]. }
  cbn [save_skips]. destruct (stashed !! name) as [tensor|]; [|done].
  specialize (Hsave skip_tracker batch ns name tensor).
  destruct (save skip_tracker batch ns name tensor) as [t b].
  simpl in Hsave. subst b. apply IH.
Qed.

(** X8.  With a tracker whose [load] and [save] leave the batch as it is,
    the body is called on the very input of [forward], and what [forward]
    returns is the very output of the body. *)
Theorem wrapper_is_transparent self input skip_tracker :
  (∀ t (b : Batch) ns name, (load t b ns name).1.2 = b) →
  (∀ t (b : Batch) ns name tensor, (save t b ns name tensor).2 = b) →
  loaded_input self input skip_tracker = input
  ∧ ∀ out skip_tracker',
      forward self input skip_tracker = (Returns out, skip_tracker') →
      ∃ l, dispatch (handle_stash self) (handle_pop self) self input
             (initial_locals self input skip_tracker) = Returns (out, l).
Proof.
  intros Hload Hsave.
  assert (Hin : loaded_input self input skip_tracker = input).
  { unfold loaded_input, loaded, load_skips, poppable.
    by rewrite load_skips_batch. }
  split; [done|]. intros out skip_tracker' Hf.
  pose proof Hf as Hf'.
  apply forward_returns_inv in Hf' as (output & l & Hd & Hst & Hpop).
  destruct (forward_returns_of_checks _ _ _ _ _ Hd Hst Hpop)
    as (batch & t' & Hs & Hf').
  rewrite Hf' in Hf. injection Hf as <- <-.
  apply save_skips_batch in Hs as ->; [|done].
  exists l. unfold dispatched in Hd. by rewrite Hin in Hd.
Qed.

(** X9.  Where no name is declared, [forward] never calls the tracker: it
    gives what [dispatch] gives on that input, output or exception, and the
    tracker it was given. *)
Theorem nothing_declared_no_tracker self input skip_tracker :
  stashable_names (cls self) = ∅ →
  poppable_names (cls self) = ∅ →
  forward self input skip_tracker
  = (match dispatch (handle_stash self) (handle_pop self) self input
             {| skips_stashed := ∅; skips_to_pop := ∅ |} with
     | Returns (output, _) => Returns output
     | Raises e => Raises e
     end, skip_tracker).
Proof.
  intros Hst Hpop.
  assert (Hl : loaded self input skip_tracker
               = (skip_tracker, {| tensor_or_tensors := input |}, ∅)).
  { unfold loaded, load_skips, poppable. by rewrite Hpop, elements_empty. }
  assert (Hd : dispatched self input skip_tracker
               = dispatch (handle_stash self) (handle_pop self) self input
                   {| skips_stashed := ∅; skips_to_pop := ∅ |}).
  { unfold dispatched, loaded_input, initial_locals. by rewrite Hl. }
  assert (Ht : loaded_tracker self input skip_tracker = skip_tracker).
  { unfold loaded_tracker. by rewrite Hl. }
  rewrite <- Hd.
  destruct (dispatched self input skip_tracker) as [[output l]|e] eqn:Hdl.
  - destruct (forward_returns_of_checks self input skip_tracker output l)
      as (batch & t' & Hs & ->); [done|set_solver| |].
    { apply (forward_returns_covers _ _ _ _ _ Hdl). set_solver. }
    revert Hs. unfold stashable. rewrite Hst, elements_empty, Ht. simpl.
    by intros [= <- <-].
  - by rewrite (forward_dispatch_raises _ _ _ _ Hdl), Ht.
Qed.
(** *** A tensor loaded as [None] *)

(** Where [load] gives [None] for a name, [None] is what [skips_to_pop]
    holds for it once the loads are done. *)
Lemma load_skips_none self (names : list string) (reachable : T → Prop)
    skip_tracker (batch : Batch) (to_pop : gmap string (option Tensor)) name :
  (∀ t (b : Batch) ns name', reachable t → reachable (load t b ns name').1.1) →
  (∀ t (b : Batch), reachable t →
     (load t b (namespaces self !! name) name).2 = None) →
  reachable skip_tracker →
  name ∈ names ∨ to_pop !! name = Some None →
  (foldl (λ '(skip_tracker, batch, skips_to_pop) '(ns, name),
            let '(skip_tracker, batch, tensor) :=
              load skip_tracker batch ns name in
            (skip_tracker, batch, <[name := tensor]> skips_to_pop))
         (skip_tracker, batch, to_pop) (namespaced self <$> names)).2 !! name
  = Some None.
Proof.
  intros Hstep Hload. revert skip_tracker batch to_pop.
  induction names as [|name' names IH];
    intros skip_tracker batch to_pop Hreach Hname.
  { by destruct Hname as [?%elem_of_nil|?]. }
  rewrite fmap_cons. cbn [foldl namespaced].
  pose proof (Hstep skip_tracker batch (namespaces self !! name') name' Hreach)
    as Hreach'.
  destruct (load skip_tracker batch _ name') as [[t b] tensor] eqn:Hl.
  apply IH; [done|]. destruct (decide (name' = name)) as [->|Hne].
  - right. specialize (Hload skip_tracker batch Hreach). rewrite Hl in Hload.
    simpl in Hload. subst tensor. apply lookup_insert_eq.
  - destruct Hname as [[?|?]%elem_of_cons|Hm]; [done|by left|].
    right. by rewrite lookup_insert_ne.
Qed.

(** C7.  Let [name] be declared poppable on a stage, whatever else the stage
    declares.  Where [skips_to_pop] holds [None] for it, a [pop] of it does
    not raise and resumes the body on [None], the name leaving [skips_to_pop]
    as any popped name does.  Where [load] gives [None] for it, [None] is
    what [skips_to_pop] holds for it, [None] is the only tensor the body is
    ever sent for it, and whenever the body runs to its end having stashed
    every stashable name and popped every poppable name, [forward] returns,
    the body having been sent [None] for [name].  In particular, with [name]
    the only declared name and [None] loaded for it, a body that pops it once
    and returns makes [forward] return that output. *)
Theorem pop_of_none_is_a_value self input skip_tracker name :
  name ∈ poppable_names (cls self) →
  (∀ (resume : option Tensor → generator) (l : locals),
     skips_to_pop l !! name = Some None →
     dispatch_loop (handle_stash self) (handle_pop self)
       (Yield (pop name) resume) l
     = dispatch_loop (handle_stash self) (handle_pop self) (resume None)
         {| skips_stashed := skips_stashed l;
            skips_to_pop := delete name (skips_to_pop l) |})
  ∧ (nothing_to_load self skip_tracker name →
     skips_to_pop (initial_locals self input skip_tracker) !! name = Some None
     ∧ (∀ tensor, (name, tensor) ∈ answers self input skip_tracker →
                  tensor = None)
     ∧ ((∃ output l,
           dispatched self input skip_tracker = Returns (output, l)) →
        (∀ name', name' ∈ stashable_names (cls self) →
           ∃ tensor, stash name' tensor ∈ commands self input skip_tracker) →
        (∀ name', name' ∈ poppable_names (cls self) →
           pop name' ∈ commands self input skip_tracker) →
        (∃ out skip_tracker',
           forward self input skip_tracker = (Returns out, skip_tracker'))
        ∧ (name, None) ∈ answers self input skip_tracker))
  ∧ (∀ (resume : option Tensor → generator) output,
       poppable_names (cls self) = {[name]} →
       stashable_names (cls self) = ∅ →
       (load skip_tracker {| tensor_or_tensors := input |}
          (namespaces self !! name) name).2 = None →
       module self (loaded_input self input skip_tracker)
       = Generator (Yield (pop name) resume) →
       resume None = Return output →
       forward self input skip_tracker
       = (Returns output, loaded_tracker self input skip_tracker)).
Proof.
  intros Hname. split_and!.
  - intros resume l Hl. by rewrite loop_pop, (handle_pop_pending _ _ None).
  - intros (reachable & Hreach & Hstep & Hload).
    assert (Hnone : skips_to_pop (initial_locals self input skip_tracker)
                    !! name = Some None).
    { unfold initial_locals, loaded, load_skips, poppable. simpl.
      apply (load_skips_none _ _ reachable); [done..|].
      left. by apply elem_of_elements. }
    assert (Hsent : ∀ tensor,
              (name, tensor) ∈ answers self input skip_tracker →
              tensor = None).
    { intros tensor. unfold answers.
      destruct (module self _) as [o|generator|e];
        [by intros ?%elem_of_nil| |by intros ?%elem_of_nil].
      intros Hin%answered_lookup. rewrite Hnone in Hin. by injection Hin. }
    split_and!; [done..|].
    intros (output & l & Hd) Hst Hpop.
    destruct (forward_returns_covers _ _ _ _ _ Hd) as [Hst' Hpop'].
    destruct (forward_returns_of_checks self input skip_tracker output l)
      as (batch & t' & _ & Hf); [done|by apply Hst'|by apply Hpop'|].
    split; [by eauto|].
    destruct (dispatched_commands _ _ _ _ _ Hd) as (_ & _ & Hnames).
    assert (Hin : name ∈ (answers self input skip_tracker).*1).
    { rewrite Hnames. apply elem_of_pop_names. by apply Hpop. }
    apply list_elem_of_fmap in Hin as ([name' tensor] & -> & Hin).
    simpl in *. by rewrite <- (Hsent _ Hin).
  - intros resume output Hpop Hst Hload Hbody Hresume.
    assert (Hnone : skips_to_pop (initial_locals self input skip_tracker)
                    !! name = Some None).
    { unfold initial_locals, loaded, load_skips, poppable. simpl.
      rewrite Hpop, elements_singleton. simpl.
      destruct (load skip_tracker _ _ name) as [[t b] tensor].
      simpl in *. subst tensor. apply lookup_insert_eq. }
    rewrite forward_eq. unfold dispatched, dispatch. rewrite Hbody.
    rewrite loop_pop, (handle_pop_pending _ _ None) by done.
    rewrite Hresume. simpl.
    match goal with
    | |- context [check_skips self ?l] =>
        assert (check_skips self l = Returns ()) as ->
    end.
    { apply check_skips_returns. simpl. split; [set_solver|].
      apply dom_empty_inv_L. rewrite dom_delete_L.
      pose proof (loaded_keys self input skip_tracker) as Hk.
      simpl in Hk. rewrite Hk, Hpop. set_solver. }
    unfold stashable. by rewrite Hst, elements_empty.
Qed.
End more_forward.

(** ** More on the calls made on the tracker *)

Section more_recorded.
Context {T : Type}.
Context `{!SkipTracker (Tensor := Tensor)
            (TensorOrTensors := TensorOrTensors) (Namespace := Namespace) T}.
Implicit Types (self : Skippable) (input : TensorOrTensors)
  (skip_tracker : T) (log : list call).

Lemma loaded_names_app log log' :
  loaded_names (log ++ log') = loaded_names log ++ loaded_names log'.
Proof. apply omap_app. Qed.

(** The loads recorded are one per name, in order, each with the key
    [namespaced] gives for its name. *)
Lemma load_skips_calls self (names : list string) skip_tracker log
    (batch : Batch) (to_pop : gmap string (option Tensor)) :
  ∃ loads,
    (foldl (λ '(skip_tracker, batch, skips_to_pop) '(ns, name),
              let '(skip_tracker, batch, tensor) :=
                load skip_tracker batch ns name in
              (skip_tracker, batch, <[name := tensor]> skips_to_pop))
           ((skip_tracker, log), batch, to_pop)
           (namespaced self <$> names)).1.1.2
    = log ++ loads
    ∧ call_key <$> loads = namespaced self <$> names
    ∧ loaded_names loads = names
    ∧ saved_names loads = [].
Proof.
  revert skip_tracker log batch to_pop.
  induction names as [|name names IH]; intros skip_tracker log batch to_pop.
  { exists []. simpl. by rewrite app_nil_r. }
  rewrite fmap_cons. cbn [foldl namespaced]. rewrite load_recorded.
  destruct (load skip_tracker batch _ name) as [[t b] tensor].
  destruct (IH t (log ++ [Load batch (namespaces self !! name) name]) b
              (<[name := tensor]> to_pop)) as (loads & -> & Hkeys & Hl & Hs).
  exists (Load batch (namespaces self !! name) name :: loads).
  rewrite <- app_assoc. split_and!; [done| | |done].
  - rewrite fmap_cons. by f_equal.
  - simpl. by f_equal.
Qed.

(** The saves recorded are for the first names of the list, in order, each
    with its key. *)
Lemma save_skips_calls (stashed : gmap string (option Tensor))
    (names : list (option Namespace * string)) skip_tracker log
    (batch : Batch) :
  ∃ saves,
    (save_skips stashed names (skip_tracker, log) batch).2.2 = log ++ saves
    ∧ call_key <$> saves `prefix_of` names
    ∧ loaded_names saves = [].
Proof.
  revert skip_tracker log batch.
  induction names as [|[ns name] names IH]; intros skip_tracker log batch.
  { exists []. simpl. by rewrite app_nil_r. }
  cbn [save_skips]. destruct (stashed !! name) as [tensor|].
  - rewrite save_recorded.
    destruct (save skip_tracker batch ns name tensor) as [t b].
    destruct (IH t (log ++ [Save batch ns name tensor]) b)
      as (saves & -> & Hpre & Hl).
    exists (Save batch ns name tensor :: saves). rewrite <- app_assoc.
    split_and!; [done| |done]. rewrite fmap_cons. by apply prefix_cons.
  - exists []. simpl. rewrite app_nil_r. split_and!; [done| |done].
    apply prefix_nil.
Qed.

(** The calls of one [forward]: the loads, then the saves. *)
Lemma forward_calls self input skip_tracker :
  ∃ loads saves,
    (forward self input (skip_tracker, [])).2.2 = loads ++ saves
    ∧ call_key <$> loads = poppable self
    ∧ loaded_names loads = elements (poppable_names (cls self))
    ∧ saved_names loads = []
    ∧ call_key <$> saves `prefix_of` stashable self
    ∧ loaded_names saves = [].
Proof.
  destruct (load_skips_calls self (elements (poppable_names (cls self)))
              skip_tracker [] {| tensor_or_tensors := input |} ∅)
    as (loads & Hlog & Hkeys & Hl & Hs).
  assert (Ht : (loaded_tracker self input (skip_tracker, [])).2 = loads).
  { unfold loaded_tracker, loaded, load_skips, poppable. by rewrite Hlog. }
  exists loads. rewrite forward_eq.
  destruct (dispatched self input (skip_tracker, [])) as [[output l]|e].
  2:{ exists []. rewrite app_nil_r. simpl. split_and!; try done.
      apply prefix_nil. }
  destruct (check_skips self l) as [[]|e].
  2:{ exists []. rewrite app_nil_r. simpl. split_and!; try done.
      apply prefix_nil. }
  destruct (loaded_tracker self input (skip_tracker, [])) as [t log].
  simpl in Ht. subst log.
  destruct (save_skips_calls (skips_stashed l) (stashable self) t loads
              {| tensor_or_tensors := output |}) as (saves & Hsaves & Hpre & Hsl).
  exists saves.
  destruct (save_skips _ _ _ _) as [[batch|e] [t' log']]; simpl in *;
    by subst log'.
Qed.

(** X10.  In every call of [forward], whether it returns or raises, [load]
    is called exactly once for each name of [poppable_names]; every [load]
    of the call comes before every [save]. *)
Theorem loads_come_first self input skip_tracker res skip_tracker' log :
  forward self input (skip_tracker, []) = (res, (skip_tracker', log)) →
  loaded_names log = elements (poppable_names (cls self))
  ∧ NoDup (loaded_names log)
  ∧ ∃ loads saves,
      log = loads ++ saves
      ∧ saved_names loads = [] ∧ loaded_names saves = [].
Proof.
  intros Hf.
  destruct (forward_calls self input skip_tracker)
    as (loads & saves & Hlog & _ & Hl & Hs & _ & Hsl).
  rewrite Hf in Hlog. simpl in Hlog. subst log.
  rewrite loaded_names_app, Hl, Hsl, app_nil_r.
  split_and!; [done|apply NoDup_elements|by eauto].
Qed.

(** X11.  Every call [forward] makes on the tracker is made with a pair that
    [poppable()] or [stashable()] yields: the name with the namespace the
    instance holds for it.  On an instance isolated by [isolate(ns)] every
    call is made with [ns]. *)
Theorem calls_carry_the_namespace self input skip_tracker :
  (∀ res skip_tracker' log c,
     forward self input (skip_tracker, []) = (res, (skip_tracker', log)) →
     c ∈ log →
     call_key c ∈ poppable self ++ stashable self
     ∧ (call_key c).1 = namespaces self !! (call_key c).2)
  ∧ (∀ ns res skip_tracker' log c,
       forward (isolate self ns None) input (skip_tracker, [])
       = (res, (skip_tracker', log)) →
       c ∈ log → (call_key c).1 = Some ns).
Proof.
  assert (Hkey : ∀ self res skip_tracker' log c,
            forward self input (skip_tracker, []) = (res, (skip_tracker', log)) →
            c ∈ log → call_key c ∈ poppable self ++ stashable self).
  { intros self' res skip_tracker' log c Hf Hin.
    destruct (forward_calls self' input skip_tracker)
      as (loads & saves & Hlog & Hkeys & _ & _ & Hpre & _).
    rewrite Hf in Hlog. simpl in Hlog. subst log.
    apply elem_of_app. apply elem_of_app in Hin as [Hin|Hin].
    - left. rewrite <- Hkeys. by apply list_elem_of_fmap_2.
    - right. destruct Hpre as [rest ->]. apply elem_of_app. left.
      by apply list_elem_of_fmap_2. }
  split.
  - intros res skip_tracker' log c Hf Hin.
    pose proof (Hkey _ _ _ _ _ Hf Hin) as Hc. split; [done|].
    destruct (call_key c) as [ns name]. simpl.
    by apply elem_of_app in Hc as [[_ ->]%elem_of_namespaced
                                  |[_ ->]%elem_of_namespaced].
  - intros ns res skip_tracker' log c Hf Hin.
    pose proof (Hkey _ _ _ _ _ Hf Hin) as Hc.
    destruct (call_key c) as [ns' name]. simpl.
    unfold poppable, stashable in Hc.
    rewrite elem_of_app, !elem_of_namespaced, !elem_of_elements in Hc.
    destruct Hc as [[Hname ->]|[Hname ->]]; rewrite isolate_lookup;
      (rewrite decide_True; [done|simpl in *; set_solver]).
Qed.

(** X12.  A stage that declares one stashable name and whose body stashes a
    tensor for it, possibly [None], and returns: [forward] makes one call on
    the tracker, the [save] of that tensor under the name and its namespace,
    on the batch of the body's output, and returns what that batch holds
    afterwards. *)
Theorem stash_reaches_the_tracker self input skip_tracker name tensor
    (resume : option Tensor → generator) output :
  stashable_names (cls self) = {[name]} →
  poppable_names (cls self) = ∅ →
  module self input = Generator (Yield (stash name tensor) resume) →
  resume None = Return output →
  let batch := {| tensor_or_tensors := output |} in
  let ns := namespaces self !! name in
  forward self input (skip_tracker, [])
  = (Returns (tensor_or_tensors (save skip_tracker batch ns name tensor).2),
     ((save skip_tracker batch ns name tensor).1,
      [Save batch ns name tensor])).
Proof.
  intros Hst Hpop Hbody Hresume batch ns.
  assert (Hl : loaded self input (skip_tracker, @nil call)
               = ((skip_tracker, []), {| tensor_or_tensors := input |}, ∅)).
  { unfold loaded, load_skips, poppable. by rewrite Hpop, elements_empty. }
  rewrite forward_eq.
  unfold dispatched, loaded_tracker, loaded_input, initial_locals, dispatch.
  rewrite Hl. simpl. rewrite Hbody, loop_stash.
  rewrite handle_stash_declared by (rewrite Hst; set_solver).
  rewrite Hresume. simpl.
  match goal with
  | |- context [check_skips self ?l] =>
      assert (check_skips self l = Returns ()) as ->
  end.
  { apply check_skips_returns. simpl. split; [|done].
    rewrite Hst, dom_insert_L. set_solver. }
  unfold stashable. rewrite Hst, elements_singleton. simpl.
  rewrite lookup_insert_eq. subst batch ns.
  by destruct (save skip_tracker _ _ name tensor).
Qed.
End more_recorded.

End more_properties.

(** * The further properties at work on the example pipeline *)

Section more_witnesses.
Import Example.

Ltac decided := apply (bool_decide_unpack _); vm_compute; exact I.

Lemma isolate_composes_witness :
  isolate_names (new Layer1) (Some ["a"])
  ## isolate_names (new Layer1) (Some ["b"])
  ∧ isolate (isolate (new Layer1) 1 (Some ["a"])) 2 (Some ["b"])
    = isolate (isolate (new Layer1) 2 (Some ["b"])) 1 (Some ["a"]).
Proof.
  assert (H : isolate_names (new Layer1) (Some ["a"])
              ## isolate_names (new Layer1) (Some ["b"])) by decided.
  split; [exact H|].
  exact (proj2 (proj2 (isolate_composes (new Layer1) 1 2
                         (Some ["a"]) (Some ["b"]))) H).
Defined.

Lemma declared_names_with_namespaces_witness :
  (Some 5, "a") ∈ stashable (isolate (new Layer1) 5 None)
                  ++ poppable (isolate (new Layer1) 5 None)
  ∧ NoDup (stashable (new Layer1)).*2.
Proof.
  assert (H : (Some 5, "a") ∈ stashable (isolate (new Layer1) 5 None)
                              ++ poppable (isolate (new Layer1) 5 None))
    by (vm_compute; left).
  split; [exact H|].
  exact (proj1 (declared_names_with_namespaces (new Layer1))).
Defined.

Lemma forward_returns_iff_witness :
  (∃ out skip_tracker', forward (new Layer3) 7 fresh = (Returns out, skip_tracker'))
  ∧ pop "a" ∈ commands (new Layer3) 7 fresh.
Proof.
  assert (H : ∃ out skip_tracker',
            forward (new Layer3) 7 fresh = (Returns out, skip_tracker'))
    by (exists 7, fresh; vm_compute; reflexivity).
  assert (H' : "a" ∈ poppable_names (cls (new Layer3))) by decided.
  split; [exact H|].
  exact (proj2 (proj2 (proj1 (forward_returns_iff (new Layer3) 7 fresh) H))
           "a" H').
Defined.

Lemma returning_call_is_exact_witness :
  forward (new Layer3) 7 fresh = (Returns 7, fresh)
  ∧ pop_names (commands (new Layer3) 7 fresh)
    ≡ₚ elements (poppable_names (cls (new Layer3))).
Proof.
  assert (H : forward (new Layer3) 7 fresh = (Returns 7, fresh))
    by (vm_compute; reflexivity).
  split; [exact H|].
  exact (proj2 (returning_call_is_exact _ _ _ _ _ H)).
Defined.

Lemma failures_come_before_saves_witness :
  forward (new Forgetful) 7 fresh
  = (Raises (RuntimeError "'b' must be stashed but have not"), fresh)
  ∧ fresh = loaded_tracker (new Forgetful) 7 fresh.
Proof.
  assert (H : forward (new Forgetful) 7 fresh
              = (Raises (RuntimeError "'b' must be stashed but have not"),
                 fresh)) by (vm_compute; reflexivity).
  split; [exact H|].
  exact (proj1 (failures_come_before_saves _ _ _ _ _ H)).
Defined.


Lemma wrapper_is_transparent_witness :
  (∀ t (b : Batch) ns name, (load t b ns name).1.2 = b)
  ∧ (∀ t (b : Batch) ns name tensor, (save t b ns name tensor).2 = b)
  ∧ loaded_input (new Layer3) 7 (<[(None, "a") := Some 3]> fresh) = 7.
Proof.
  assert (H1 : ∀ t (b : Batch) ns name,
            (load (SkipTracker := tracker) t b ns name).1.2 = b)
    by (intros; reflexivity).
  assert (H2 : ∀ t (b : Batch) ns name tensor,
            (save (SkipTracker := tracker) t b ns name tensor).2 = b)
    by (intros; reflexivity).
  split_and!; [exact H1|exact H2|].
  exact (proj1 (wrapper_is_transparent (new Layer3) 7
                  (<[(None, "a") := Some 3]> fresh) H1 H2)).
Defined.

Lemma nothing_declared_no_tracker_witness :
  stashable_names (cls (new YieldsNumber)) = ∅
  ∧ poppable_names (cls (new YieldsNumber)) = ∅
  ∧ forward (new YieldsNumber) 7 (<[(None, "a") := Some 3]> fresh)
    = (Raises (TypeError "42 is not a command from @skippable"),
       <[(None, "a") := Some 3]> fresh).
Proof.
  assert (H1 : stashable_names (cls (new YieldsNumber)) = ∅) by reflexivity.
  assert (H2 : poppable_names (cls (new YieldsNumber)) = ∅) by reflexivity.
  split_and!; [exact H1|exact H2|].
  exact (nothing_declared_no_tracker (new YieldsNumber) 7
           (<[(None, "a") := Some 3]> fresh) H1 H2).
Defined.

Lemma loads_come_first_witness :
  let log : list call := [Load {| tensor_or_tensors := 7 |} None "a"] in
  forward (new Lazy) 7 (fresh, [])
  = (Raises (RuntimeError "'a' must be popped but have not"), (fresh, log))
  ∧ loaded_names log = elements (poppable_names (cls (new Lazy))).
Proof.
  intros log.
  assert (H : forward (new Lazy) 7 (fresh, [])
              = (Raises (RuntimeError "'a' must be popped but have not"),
                 (fresh, log))) by (vm_compute; reflexivity).
  split; [exact H|].
  exact (proj1 (loads_come_first _ _ _ _ _ _ H)).
Defined.

Lemma calls_carry_the_namespace_witness :
  let c : call := Save {| tensor_or_tensors := 14 |} (Some 5) "a" (Some 7) in
  let log : list call :=
    [c; Save {| tensor_or_tensors := 14 |} (Some 5) "b" (Some 8)] in
  let saved :=
    <[(Some 5, "b") := Some 8]> (<[(Some 5, "a") := Some 7]> fresh) in
  forward (isolate (new Layer1) 5 None) 7 (fresh, [])
  = (Returns 14, (saved, log))
  ∧ c ∈ log
  ∧ (call_key c).1 = Some 5.
Proof.
  intros c log saved.
  assert (H : forward (isolate (new Layer1) 5 None) 7 (fresh, [])
              = (Returns 14, (saved, log))) by (vm_compute; reflexivity).
  assert (H' : c ∈ log) by left.
  split_and!; [exact H|exact H'|].
  exact (proj2 (calls_carry_the_namespace (new Layer1) 7 fresh)
           5 _ _ _ c H H').
Defined.

Lemma stash_reaches_the_tracker_witness :
  stashable_names (cls (new StashNone)) = {["a"]}
  ∧ poppable_names (cls (new StashNone)) = ∅
  ∧ forward (new StashNone) 7 (fresh, [])
    = (Returns 7,
       (<[(None, "a") := None]> fresh,
        [Save {| tensor_or_tensors := 7 |} None "a" None])).
Proof.
  assert (H1 : stashable_names (cls (new StashNone)) = {["a"]})
    by (vm_compute; reflexivity).
  assert (H2 : poppable_names (cls (new StashNone)) = ∅) by reflexivity.
  split_and!; [exact H1|exact H2|].
  exact (stash_reaches_the_tracker (new StashNone) 7 fresh "a" None
           (λ _, Return 7) 7 H1 H2 eq_refl eq_refl).
Defined.
Lemma pop_of_none_is_a_value_witness :
  ("x" ∈ poppable_names (cls (new StashAndPop))
   ∧ nothing_to_load (new StashAndPop) fresh "x"
   ∧ (∃ output l, dispatched (new StashAndPop) 7 fresh = Returns (output, l))
   ∧ (∃ out skip_tracker',
        forward (new StashAndPop) 7 fresh = (Returns out, skip_tracker'))
   ∧ ("x", None) ∈ answers (new StashAndPop) 7 fresh)
  ∧ ("a" ∈ poppable_names (cls (new Layer3))
     ∧ (load fresh {| tensor_or_tensors := 7 |}
          (namespaces (new Layer3) !! "a") "a").2 = None
     ∧ forward (new Layer3) 7 fresh = (Returns 7, fresh)).
Proof.
  assert (H1 : "x" ∈ poppable_names (cls (new StashAndPop))) by decided.
  assert (H2 : nothing_to_load (new StashAndPop) fresh "x").
  { exists (λ t, t !! (None, "x") = None). split_and!.
    - reflexivity.
    - intros t batch ns name' Ht. exact Ht.
    - intros t batch Ht.
      change (default None (t !! (None, "x")) = None). by rewrite Ht. }
  assert (H3 : ∃ output l,
            dispatched (new StashAndPop) 7 fresh = Returns (output, l))
    by (eexists _, _; vm_compute; reflexivity).
  assert (H4 : ∀ name', name' ∈ stashable_names (cls (new StashAndPop)) →
            ∃ tensor, stash name' tensor ∈ commands (new StashAndPop) 7 fresh).
  { intros name' ->%elem_of_list_to_set%list_elem_of_singleton.
    exists (Some 7). vm_compute. left. }
  assert (H5 : ∀ name', name' ∈ poppable_names (cls (new StashAndPop)) →
            pop name' ∈ commands (new StashAndPop) 7 fresh).
  { intros name' ->%elem_of_list_to_set%list_elem_of_singleton.
    vm_compute. right. left. }
  assert (H6 : "a" ∈ poppable_names (cls (new Layer3))) by decided.
  assert (H7 : poppable_names (cls (new Layer3)) = {["a"]})
    by (vm_compute; reflexivity).
  assert (H8 : stashable_names (cls (new Layer3)) = ∅) by reflexivity.
  assert (H9 : (load fresh {| tensor_or_tensors := 7 |}
                  (namespaces (new Layer3) !! "a") "a").2 = None)
    by reflexivity.
  assert (H10 : module (new Layer3) (loaded_input (new Layer3) 7 fresh)
                = Generator (Yield (pop "a")
                               (λ a, Return (7 + default 0 a))))
    by reflexivity.
  split.
  - split_and!; [exact H1|exact H2|exact H3|..].
    + exact (proj1 (proj2 (proj2 (proj1 (proj2
               (pop_of_none_is_a_value _ 7 fresh "x" H1)) H2)) H3 H4 H5)).
    + exact (proj2 (proj2 (proj2 (proj1 (proj2
               (pop_of_none_is_a_value _ 7 fresh "x" H1)) H2)) H3 H4 H5)).
  - split_and!; [exact H6|exact H9|].
    exact (proj2 (proj2 (pop_of_none_is_a_value _ 7 fresh "a" H6))
             _ 7 H7 H8 H9 H10 eq_refl).
Defined.
End more_witnesses.
